(** * infodump+ : the largest-files scanner and the top-CPU ranker

    A shallow embedding of [infodump+.py].  Python values that reach the
    two selection routines are modelled directly: integers as [Z] or [N],
    finite floats by the rationals they denote, strings as [string]
    (compared byte-wise, which on UTF-8 agrees with Python's code point
    order), exceptions as values of [exn] threaded through a small
    output-and-exception monad. *)

From Stdlib Require Import List ZArith NArith QArith Qround Lia Bool.
From Stdlib Require Import String Ascii Permutation Sorted DecimalString.
Import ListNotations.

Local Open Scope list_scope.

(** ** Python values, exceptions and results *)

Module Py.

(** The values that are interpolated into the report's f-strings. *)
Inductive pyval : Type :=
| PyNone
| PyInt (z : Z)
| PyFloat (q : Q)
| PyStr (s : string).

(** The exception classes the program handles or lets escape.  A
    [TypeError] carries no message: for a failed comparison inside a sort
    the operands named in it depend on the order of comparisons. *)
Inductive exn : Type :=
| OSError (msg : string)
| FileNotFoundError (msg : string)
| PermissionError (msg : string)
| CalledProcessError (msg : string)
| TypeError
| KeyError (key : string)
| OtherException (msg : string).

(** [isinstance(e, OSError)]: the two subclasses are caught with it. *)
Definition is_OSError (e : exn) : bool :=
  match e with
  | OSError _ | FileNotFoundError _ | PermissionError _ => true
  | _ => false
  end.

Definition is_CalledProcessError (e : exn) : bool :=
  match e with CalledProcessError _ => true | _ => false end.

Definition is_FileNotFoundError (e : exn) : bool :=
  match e with FileNotFoundError _ => true | _ => false end.

Definition is_PermissionError (e : exn) : bool :=
  match e with PermissionError _ => true | _ => false end.

(** [str(e)] as used by [f"Error: {e}"]: the message, for a [KeyError]
    the key between quotes, and for a [TypeError], whose message is not
    modelled, the empty string. *)
Definition exn_str (e : exn) : string :=
  match e with
  | OSError m | FileNotFoundError m | PermissionError m
  | CalledProcessError m | OtherException m => m
  | TypeError => ""
  | KeyError k => ("'" ++ k ++ "'")%string
  end.

Inductive result (A : Type) : Type :=
| Ok (a : A)
| Raise (e : exn).
Arguments Ok {A} a.
Arguments Raise {A} e.

Definition rbind {A B} (r : result A) (k : A -> result B) : result B :=
  match r with
  | Ok a => k a
  | Raise e => Raise e
  end.

Definition is_ok {A} (r : result A) : bool :=
  match r with Ok _ => true | Raise _ => false end.

(** Numbers compare by value, whatever their Python type. *)
Definition as_number (v : pyval) : option Q :=
  match v with
  | PyInt z => Some (inject_Z z)
  | PyFloat q => Some q
  | _ => None
  end.

Definition Qltb (x y : Q) : bool :=
  match Qcompare x y with Lt => true | _ => false end.

(** [a < b] on Python values: defined between numbers and between
    strings, a [TypeError] otherwise (in particular whenever [None] is an
    operand). *)
Definition py_lt (a b : pyval) : result bool :=
  match as_number a, as_number b with
  | Some x, Some y => Ok (Qltb x y)
  | _, _ =>
      match a, b with
      | PyStr s, PyStr t => Ok (String.ltb s t)
      | _, _ => Raise TypeError
      end
  end.

(** [l[:count]]: a negative bound counts from the end. *)
Definition slice_to {A} (l : list A) (count : Z) : list A :=
  if (0 <=? count)%Z then firstn (Z.to_nat count) l
  else firstn (Z.to_nat (Z.of_nat (List.length l) + count)) l.

(** *** [sorted(l, key=key, reverse=True)]

    The library sorts stably with [<] on the keys only; with
    [reverse=True] elements whose keys are equal keep their original
    order.  The model is the stable insertion sort with that behaviour:
    an element is placed in front of the sorted rest unless its key is
    smaller than the key of the first element there.  A comparison that
    raises aborts the sort, and a list of fewer than two elements is
    returned without any comparison. *)
Section Sorted.
Context {A K : Type}.
Variable lt : K -> K -> result bool.
Variable key : A -> K.

Fixpoint insert_rev (x : A) (l : list A) : result (list A) :=
    match l with
    | [] => Ok [x]
    | y :: ys =>
        rbind (lt (key x) (key y)) (fun b =>
          if b then rbind (insert_rev x ys) (fun r => Ok (y :: r))
          else Ok (x :: y :: ys))
    end.

Fixpoint sorted_rev (l : list A) : result (list A) :=
    match l with
    | [] => Ok []
    | x :: xs => rbind (sorted_rev xs) (insert_rev x)
    end.
End Sorted.

End Py.
Import Py.

(** ** The output sink *)

(** An f-string: literal text and interpolated values.  How Python
    renders an interpolated value ([format(v, "")]) is not modelled; the
    one format specification the program uses, [.2f], is ([format_2f]). *)
Inductive frag : Type :=
| Lit (s : string)
| Interp (v : pyval).

Definition text : Type := list frag.

(** What reaches the terminal: [print(t)], [console.print(t, style=s)]
    and [console.print(Panel(t, style=s))]. *)
Inductive event : Type :=
| PlainPrint (t : text)
| ConsolePrint (t : text) (style : option string)
| ConsolePanel (t : text) (style : string).

(** Commands: the events emitted so far and a value or the exception that
    stopped the command. *)
Definition M (A : Type) : Type := (list event * result A)%type.

Definition ret {A} (a : A) : M A := ([], Ok a).

Definition bind {A B} (m : M A) (k : A -> M B) : M B :=
  match m with
  | (out, Ok a) => let '(out', r) := k a in (out ++ out', r)
  | (out, Raise e) => (out, Raise e)
  end.

Definition emit (e : event) : M unit := ([e], Ok tt).

Definition lift {A} (r : result A) : M A := ([], r).

(** [try: body  except <classes selected by catches> as e: handler e]. *)
Definition try_except {A} (body : M A) (catches : exn -> bool)
    (handler : exn -> M A) : M A :=
  match body with
  | (out, Ok a) => (out, Ok a)
  | (out, Raise e) =>
      if catches e then let '(out', r) := handler e in (out ++ out', r)
      else (out, Raise e)
  end.

Declare Scope cmd_scope.
Delimit Scope cmd_scope with cmd.
Notation "x <- m ;; k" := (bind m (fun x => k))
  (at level 61, m at next level, right associativity) : cmd_scope.
Notation "m ;;; k" := (bind m (fun _ => k))
  (at level 61, right associativity) : cmd_scope.

Fixpoint for_each {A} (l : list A) (body : A -> M unit) : M unit :=
  match l with
  | [] => ret tt
  | x :: xs => (body x ;;; for_each xs body)%cmd
  end.

(** The [if console: console.print(...) else: print(...)] idiom;
    [console] is [true] when a rich console was created. *)
Definition say (console : bool) (t : text) (style : option string) : M unit :=
  if console then emit (ConsolePrint t style) else emit (PlainPrint t).

Definition equals20 : string := "====================".

Definition header (title : text) (console : bool) : M unit :=
  if console then emit (ConsolePanel title "bold cyan")
  else emit (PlainPrint
         ([Lit (String (ascii_of_nat 10) equals20); Lit " "]
            ++ title ++ [Lit " "; Lit equals20])).

(** ** The filesystem as the scanner sees it *)

(** What [os.scandir] reports below a path.  [Dir None] is a directory
    whose listing raises [OSError] (missing, unreadable, not a directory
    at all); [DirLink] is a symbolic link to a directory, which
    [entry.is_dir()] classifies as a directory and [os.walk] does not
    descend into; [NonDir] is every other entry, broken links included. *)
#[warnings="-register-all"]
Inductive node : Type :=
| NonDir
| DirLink
| Dir (listing : option (list (string * node))).

(** The two collaborators of the scanner: the directory structure found
    at a path, and [os.path.getsize], where [None] stands for the
    [OSError] it raises.  They are independent: a file that was listed
    can be gone by the time its size is asked for. *)
Record filesystem : Type := {
  tree_at : string -> node;
  getsize : string -> option N
}.

Definition is_sep (c : ascii) : bool := Ascii.eqb c "/".

Definition starts_with_sep (s : string) : bool :=
  match s with
  | String c _ => is_sep c
  | EmptyString => false
  end.

Fixpoint ends_with_sep (s : string) : bool :=
  match s with
  | EmptyString => false
  | String c EmptyString => is_sep c
  | String _ rest => ends_with_sep rest
  end.

(** [os.path.join(a, b)] of [posixpath]. *)
Definition path_join (a b : string) : string :=
  if starts_with_sep b || String.eqb a "" then b
  else if ends_with_sep a then (a ++ b)%string
  else (a ++ "/" ++ b)%string.

Definition is_dir (n : node) : bool :=
  match n with
  | NonDir => false
  | DirLink | Dir _ => true
  end.

Definition names_where (p : node -> bool) (entries : list (string * node))
  : list string :=
  map fst (filter (fun e => p (snd e)) entries).

(** [os.walk(top)] with its defaults: top-down, [onerror=None] (a
    directory whose listing fails yields nothing and the walk goes on),
    [followlinks=False].  One triple [(root, dirs, filenames)] per
    directory that could be listed. *)
Fixpoint os_walk (top : string) (n : node)
  : list (string * list string * list string) :=
  match n with
  | Dir (Some entries) =>
      (top, names_where is_dir entries,
            names_where (fun c => negb (is_dir c)) entries)
      :: flat_map (fun e => os_walk (path_join top (fst e)) (snd e)) entries
  | _ => []
  end.

(** ** Formatting sizes *)

(** [float(n)] for a non-negative integer: the nearest number with 53
    significant bits, ties to even. *)
Definition round53 (n : N) : N :=
  let bits := N.size n in
  if (bits <=? 53)%N then n
  else
    let sh := (bits - 53)%N in
    let q := N.shiftr n sh in
    let r := (n mod 2 ^ sh)%N in
    let half := (2 ^ (sh - 1))%N in
    let q' := if (half <? r)%N || ((r =? half)%N && N.odd q)
              then (q + 1)%N else q in
    N.shiftl q' sh.

(** [size / (1024 ** k)]: true division of integers is correctly
    rounded, and dividing by a power of two only moves the exponent. *)
Definition true_div_1024 (size : N) (k : positive) : Q :=
  Z.of_N (round53 size) # (1024 ^ k).

Definition digit (d : Z) : ascii := ascii_of_N (48 + Z.to_N d).

Definition decimal (z : Z) : string :=
  NilZero.string_of_uint (N.to_uint (Z.to_N z)).

(** Nearest integer to [a / b] for [0 <= a], [0 < b], ties to even. *)
Definition round_half_even (a b : Z) : Z :=
  let fl := (a / b)%Z in
  match (2 * (a mod b) ?= b)%Z with
  | Lt => fl
  | Gt => (fl + 1)%Z
  | Eq => if Z.even fl then fl else (fl + 1)%Z
  end.

(** The hundredths shown by [format(x, ".2f")] for [0 <= x]: the decimal
    conversion rounds the exact value of the float. *)
Definition hundredths (x : Q) : Z :=
  round_half_even (Z.abs (Qnum x) * 100) (Zpos (Qden x)).

Definition format_2f (x : Q) : string :=
  let n := hundredths x in
  ((if (Qnum x <? 0)%Z then "-" else "")
     ++ decimal (n / 100)
     ++ String "." (String (digit (n / 10 mod 10))
                      (String (digit (n mod 10)) "")))%string.

(** ** [largest_files] *)

Definition file_entry : Type := (N * string)%type.

(** [a < b] on [(size, path)] tuples: the first component that differs
    decides. *)
Definition tuple_ltb (a b : file_entry) : bool :=
  if (fst a =? fst b)%N then String.ltb (snd a) (snd b)
  else (fst a <? fst b)%N.

Definition tuple_lt (a b : file_entry) : result bool := Ok (tuple_ltb a b).

(** The inner loop: one directory's file names, each measured or
    skipped on [OSError]. *)
Fixpoint measure (fs : filesystem) (root : string) (filenames : list string)
  : list file_entry :=
  match filenames with
  | [] => []
  | fname :: rest =>
      let fpath := path_join root fname in
      match getsize fs fpath with
      | Some size => (size, fpath) :: measure fs root rest
      | None => measure fs root rest
      end
  end.

(** The outer loop: [files] after the walk. *)
Definition collect (fs : filesystem) (path : string) : list file_entry :=
  flat_map (fun '(root, _, filenames) => measure fs root filenames)
           (os_walk path (tree_at fs path)).

Definition formatted_size (size : N) : string :=
  if (1024 ^ 3 <=? size)%N
  then (format_2f (true_div_1024 size 3) ++ " GB")%string
  else (format_2f (true_div_1024 size 2) ++ " MB")%string.

Definition file_line (e : file_entry) : text :=
  [Interp (PyStr (formatted_size (fst e))); Lit " - "; Interp (PyStr (snd e))].

(** The entries that get printed: [sorted(files, reverse=True)[:count]]. *)
Definition selected (files : list file_entry) (count : Z)
  : result (list file_entry) :=
  rbind (sorted_rev tuple_lt (fun e => e) files)
        (fun s => Ok (slice_to s count)).

Definition largest_files (fs : filesystem) (path : string) (count : Z)
    (console : bool) : M unit :=
  (header [Interp (PyInt count); Lit " LARGEST FILES in "; Interp (PyStr path)]
          console ;;;
   try_except
     (let files := collect fs path in
      top <- lift (selected files count) ;;
      for_each top (fun e => say console (file_line e) None))
     (fun _ => true)
     (fun e => say console [Lit "Error: "; Interp (PyStr (exn_str e))]
                   (Some "bold red"%string)))%cmd.

(** ** [top_cpu_processes] *)

(** [p.info] for [attrs=['pid', 'name', 'cpu_percent']].  For
    [cpu_percent] the dictionary is kept as it is: the key can be missing
    ([None] here) and a key that is there can hold Python's [None]
    ([Some PyNone]), which is what the process provider stores for a
    value it could not read. *)
Record proc_info : Type := {
  pid : Z;
  name : string;
  cpu_percent : option pyval
}.

(** [d.get(key, default)] and [d[key]] on that entry of the dictionary. *)
Definition dict_get (slot : option pyval) (default : pyval) : pyval :=
  match slot with
  | Some v => v
  | None => default
  end.

Definition dict_item (key : string) (slot : option pyval) : result pyval :=
  match slot with
  | Some v => Ok v
  | None => Raise (KeyError key)
  end.

(** The sort key: [lambda p: p.info.get('cpu_percent', 0)]. *)
Definition cpu_key (p : proc_info) : pyval :=
  dict_get (cpu_percent p) (PyInt 0).

(** [sorted(process_iter(...), key=..., reverse=True)]. *)
Definition ranked (ps : list proc_info) : result (list proc_info) :=
  sorted_rev py_lt cpu_key ps.

Definition proc_line (p : proc_info) : result text :=
  rbind (dict_item "cpu_percent" (cpu_percent p)) (fun cpu =>
    Ok [Interp (PyInt (pid p)); Lit " - "; Interp (PyStr (name p));
        Lit " ("; Interp cpu; Lit "% CPU)"]).

(** The body of the printing loop. *)
Definition print_proc (console : bool) (p : proc_info) : M unit :=
  (line <- lift (proc_line p) ;;
   say console line None)%cmd.

(** [snapshot] is what iterating [psutil.process_iter] gives: the list
    of processes, or the exception that made the list unavailable. *)
Definition top_cpu_processes (snapshot : result (list proc_info)) (n : Z)
    (console : bool) : M unit :=
  (header [Lit "TOP "; Interp (PyInt n); Lit " CPU PROCESSES"] console ;;;
   ps <- lift snapshot ;;
   processes <- lift (ranked ps) ;;
   for_each (slice_to processes n) (print_proc console))%cmd.

(** ** The other sections and the driver *)

Record memory : Type := {
  total : N;
  available : N;
  used : N;
  percent : pyval
}.

(** Everything the report asks of the machine.  The outputs of
    [nvidia-smi] are taken after [strip()] and [splitlines()]. *)
Record world : Type := {
  getcwd : result string;
  getlogin : result string;
  gethostname : string;
  release : string;
  system : string;
  version : string;
  lang : option string;
  now : string;
  ping : result unit;
  net_if_addrs : list string;
  virtual_memory : memory;
  disk_partitions : list (string * string);
  disk_usage : string -> result pyval;
  files : filesystem;
  process_iter : result (list proc_info);
  sensors : result string;
  nvidia_smi_list : result string;
  nvidia_smi_temps : result (list string)
}.

Definition get_basic_info (w : world) (console : bool) : M unit :=
  (header [Lit "SYSTEM INFO"] console ;;;
   cwd <- lift (getcwd w) ;;
   user <- lift (getlogin w) ;;
   let info :=
     [ [Lit "Current Directory: "; Interp (PyStr cwd)];
       [Lit "Username: "; Interp (PyStr user)];
       [Lit "Hostname: "; Interp (PyStr (gethostname w))];
       [Lit "Kernel: "; Interp (PyStr (release w))];
       [Lit "OS: "; Interp (PyStr (system w)); Lit " ";
        Interp (PyStr (version w))];
       [Lit "Language: ";
        Interp (PyStr (match lang w with Some l => l | None => "Unknown" end))];
       [Lit "Time: "; Interp (PyStr (now w))] ] in
   for_each info (fun line => say console line None))%cmd.

Definition check_network (w : world) (console : bool) : M unit :=
  (header [Lit "NETWORK"] console ;;;
   message <- try_except
     (lift (ping w) ;;; ret [Lit "✅ Outbound connection successful."])
     is_CalledProcessError
     (fun _ => ret [Lit "❌ Outbound connection FAILED."]) ;;
   say console message None ;;;
   say console [Lit (String (ascii_of_nat 10) "Interfaces:")] None ;;;
   for_each (net_if_addrs w) (fun iface =>
     say console [Lit " - "; Interp (PyStr iface)] None))%cmd.

Definition gb (n : N) : string := format_2f (true_div_1024 n 3).

Definition show_memory (w : world) (console : bool) : M unit :=
  (header [Lit "MEMORY"] console ;;;
   let mem := virtual_memory w in
   let lines :=
     [ [Lit "Total: "; Interp (PyStr (gb (total mem))); Lit " GB"];
       [Lit "Available: "; Interp (PyStr (gb (available mem))); Lit " GB"];
       [Lit "Used: "; Interp (PyStr (gb (used mem))); Lit " GB (";
        Interp (percent mem); Lit "%)"] ] in
   for_each lines (fun line => say console line None))%cmd.

Definition show_disks (w : world) (console : bool) : M unit :=
  (header [Lit "DISK USAGE"] console ;;;
   for_each (disk_partitions w) (fun '(device, mountpoint) =>
     line <- try_except
       (usage <- lift (disk_usage w mountpoint) ;;
        ret [Interp (PyStr device); Lit " ("; Interp (PyStr mountpoint);
             Lit "): "; Interp usage; Lit "% used"])
       is_PermissionError
       (fun _ => ret [Interp (PyStr device); Lit " (";
                      Interp (PyStr mountpoint); Lit "): Permission Denied"]) ;;
     say console line None))%cmd.

Definition show_temperatures (w : world) (console : bool) : M unit :=
  (header [Lit "SYSTEM TEMPERATURES"] console ;;;
   try_except
     (sensors_output <- lift (sensors w) ;;
      say console [Interp (PyStr sensors_output)] None)
     (fun e => is_CalledProcessError e || is_FileNotFoundError e)
     (fun e =>
        if is_CalledProcessError e
        then say console [Lit "Error executing lm-sensors: ";
                          Interp (PyStr (exn_str e))] (Some "bold red"%string)
        else say console
               [Lit "lm-sensors command not found. Please install lm-sensors."]
               (Some "bold red"%string)))%cmd.

Fixpoint gpu_lines (idx : Z) (temperatures : list string) : list text :=
  match temperatures with
  | [] => []
  | temp :: rest =>
      [Lit "GPU "; Interp (PyInt idx); Lit ": "; Interp (PyStr temp); Lit "°C"]
      :: gpu_lines (idx + 1) rest
  end.

Definition show_nvidia_temperature (w : world) (console : bool) : M unit :=
  try_except
    (nvidia_list <- lift (nvidia_smi_list w) ;;
     if String.eqb nvidia_list ""
     then say console [Lit "No Nvidia GPU detected."] (Some "yellow"%string)
     else
       temperatures <- lift (nvidia_smi_temps w) ;;
       match temperatures with
       | [] => say console [Lit "Unable to retrieve Nvidia GPU temperature."]
                   (Some "bold red"%string)
       | _ => for_each (gpu_lines 0 temperatures)
                       (fun message => say console message None)
       end)%cmd
    (fun e => is_FileNotFoundError e || is_CalledProcessError e)
    (fun e =>
       if is_FileNotFoundError e
       then say console
              [Lit "nvidia-smi not found. Nvidia drivers may not be installed."]
              (Some "bold red"%string)
       else say console [Lit "Error calling nvidia-smi: ";
                         Interp (PyStr (exn_str e))] (Some "bold red"%string)).

(** The parsed command line, and whether [rich] could be imported. *)
Record args : Type := {
  arg_path : string;
  arg_largest : Z;
  arg_cpu : Z;
  no_color : bool;
  no_temp : bool;
  no_nvidia : bool
}.

Definition default_args : args :=
  {| arg_path := "/home"; arg_largest := 3; arg_cpu := 3;
     no_color := false; no_temp := false; no_nvidia := false |}.

Definition main (w : world) (rich : bool) (a : args) : M unit :=
  let console := negb (no_color a) && rich in
  (get_basic_info w console ;;;
   check_network w console ;;;
   show_memory w console ;;;
   show_disks w console ;;;
   largest_files (files w) (arg_path a) (arg_largest a) console ;;;
   top_cpu_processes (process_iter w) (arg_cpu a) console ;;;
   (if no_temp a then ret tt else show_temperatures w console) ;;;
   (if no_nvidia a then ret tt else show_nvidia_temperature w console))%cmd.

(** ** The sort without exceptions *)

(** When every comparison the sort can make succeeds, the sort is the
    pure descending insertion sort [sort_desc] for the comparison
    [less x y], read "x ranks below y". *)
Section SortDescDef.
Context {A : Type}.
Variable less : A -> A -> bool.

Fixpoint insert_desc (x : A) (l : list A) : list A :=
    match l with
    | [] => [x]
    | y :: ys => if less x y then y :: insert_desc x ys else x :: y :: ys
    end.

Fixpoint sort_desc (l : list A) : list A :=
    match l with
    | [] => []
    | x :: xs => insert_desc x (sort_desc xs)
    end.

  (** [x] may stand before [y] in a descending list. *)
Definition not_below (x y : A) : Prop := less x y = false.
End SortDescDef.

(** [less] from a three-way comparison. *)
Definition less_of {A} (cmp : A -> A -> comparison) (x y : A) : bool :=
  match cmp x y with Lt => true | _ => false end.

(** The three-way reading of the tuple comparison. *)
Definition tuple_compare (a b : file_entry) : comparison :=
  match (fst a ?= fst b)%N with
  | Eq => String.compare (snd a) (snd b)
  | c => c
  end.

(** ** Vocabulary of the statements *)

(** The event [say] produces, and the one [header] produces. *)
Definition say_event (console : bool) (t : text) (style : option string)
  : event :=
  if console then ConsolePrint t style else PlainPrint t.

Definition header_event (title : text) (console : bool) : event :=
  if console then ConsolePanel title "bold cyan"
  else PlainPrint ([Lit (String (ascii_of_nat 10) equals20); Lit " "]
                     ++ title ++ [Lit " "; Lit equals20]).

Definition files_title (count : Z) (path : string) : text :=
  [Interp (PyInt count); Lit " LARGEST FILES in "; Interp (PyStr path)].

Definition file_events (console : bool) (top : list file_entry) : list event :=
  map (fun e => say_event console (file_line e) None) top.

(** [a] may be listed before [b]: it is larger, or as large with a path
    that is not smaller. *)
Definition descending (a b : file_entry) : Prop :=
  (fst b < fst a)%N \/
  (fst a = fst b /\ String.compare (snd a) (snd b) <> Lt).

(** Every path the walk hands to [os.path.getsize], in order. *)
Definition candidates (fs : filesystem) (path : string) : list string :=
  flat_map (fun '(root, _, filenames) => map (path_join root) filenames)
           (os_walk path (tree_at fs path)).

(** An error line of [largest_files]. *)
Definition is_error_event (e : event) : bool :=
  match e with
  | PlainPrint (Lit "Error: " :: _) => true
  | ConsolePrint (Lit "Error: " :: _) _ => true
  | _ => false
  end.

(** What one candidate path contributes to [files]. *)
Definition measured (fs : filesystem) (p : string) : list file_entry :=
  match getsize fs p with
  | Some size => [(size, p)]
  | None => []
  end.

(** *** Bounded selection

    The alternative the specification allows for very large trees: keep
    at most [K] entries while scanning, replace the smallest kept entry
    whenever a larger one arrives, and sort what is kept at the end.  The
    heap is kept as a bag whose minimum is searched for; its layout does
    not matter for what it returns. *)
Definition tuple_eqb (a b : file_entry) : bool :=
  (fst a =? fst b)%N && String.eqb (snd a) (snd b).

Fixpoint heap_min (h : list file_entry) : option file_entry :=
  match h with
  | [] => None
  | x :: rest =>
      match heap_min rest with
      | None => Some x
      | Some m => Some (if tuple_ltb x m then x else m)
      end
  end.

Fixpoint remove_one (x : file_entry) (h : list file_entry) : list file_entry :=
  match h with
  | [] => []
  | y :: rest => if tuple_eqb x y then rest else y :: remove_one x rest
  end.

Definition heap_offer (K : nat) (h : list file_entry) (x : file_entry)
  : list file_entry :=
  if (List.length h <? K)%nat then x :: h
  else
    match heap_min h with
    | None => h
    | Some m => if tuple_ltb m x then x :: remove_one m h else h
    end.

Definition heap_top_k (K : nat) (files : list file_entry) : list file_entry :=
  sort_desc tuple_ltb (fold_left (heap_offer K) files []).

(** What the bounded buffer holds after some entries: the best [K] of
    them, in some order. *)
Definition keeps_best (K : nat) (seen buf : list file_entry) : Prop :=
  exists rest,
    Permutation seen (buf ++ rest) /\
    List.length buf = Nat.min K (List.length seen) /\
    (forall x y, In x buf -> In y rest -> tuple_ltb x y = false).

(** *** Sample inputs *)

Definition MB : N := 1024 ^ 2.
Definition GB : N := 1024 ^ 3.

(** A tree with files of 500 MB, 2 GB and 10 MB, one more file that is
    gone when its size is asked for, and a link to a directory. *)
Local Open Scope string_scope.

Definition sample_fs : filesystem := {|
  tree_at := fun p =>
    if String.eqb p "/data"
    then Dir (Some [ ("a.iso", NonDir);
                     ("sub", Dir (Some [("b.img", NonDir); ("gone", NonDir)]));
                     ("link", DirLink);
                     ("c.log", NonDir) ])
    else Dir None;
  getsize := fun p =>
    if String.eqb p "/data/a.iso" then Some (500 * MB)%N
    else if String.eqb p "/data/sub/b.img" then Some (2 * GB)%N
    else if String.eqb p "/data/c.log" then Some (10 * MB)%N
    else None
|}.

Local Close Scope string_scope.

Definition is_decimal_digit (c : ascii) : bool :=
  (48 <=? N_of_ascii c)%N && (N_of_ascii c <=? 57)%N.

Fixpoint all_digits (s : string) : bool :=
  match s with
  | EmptyString => true
  | String c rest => is_decimal_digit c && all_digits rest
  end.

(** *** The ranker *)

(** The usage an entry is ranked with, when its key is a number. *)
Definition usage (p : proc_info) : Q :=
  match as_number (cpu_key p) with
  | Some q => q
  | None => 0
  end.

Definition less_usage (p q : proc_info) : bool := Qltb (usage p) (usage q).

(** The sort key is a number: the reading is one, or the key is missing
    and the default applies. *)
Definition is_numeric (p : proc_info) : bool :=
  match as_number (cpu_key p) with Some _ => true | None => false end.

(** The dictionary holds a number under ['cpu_percent']. *)
Definition has_number (p : proc_info) : bool :=
  match cpu_percent p with
  | Some v => match as_number v with Some _ => true | None => false end
  | None => false
  end.

Definition has_reading (p : proc_info) : bool :=
  match cpu_percent p with Some _ => true | None => false end.

Definition same_usage (v : Q) (p : proc_info) : bool := Qeq_bool (usage p) v.

Definition cpu_title (n : Z) : text :=
  [Lit "TOP "; Interp (PyInt n); Lit " CPU PROCESSES"].

Definition proc_text (p : proc_info) : text :=
  [Interp (PyInt (pid p)); Lit " - "; Interp (PyStr (name p));
   Lit " ("; Interp (cpu_key p); Lit "% CPU)"].

Definition proc_events (console : bool) (top : list proc_info) : list event :=
  map (fun p => say_event console (proc_text p) None) top.

(** The order the specification asks of the ranking: usage descending,
    equal usage by PID ascending. *)
Definition usage_then_pid (a b : proc_info) : Prop :=
  (usage b < usage a)%Q \/ ((usage a == usage b)%Q /\ (pid a < pid b)%Z).

Definition pid_ascending (a b : proc_info) : Prop := (pid a < pid b)%Z.

Definition usage_descending (a b : proc_info) : Prop :=
  (usage b <= usage a)%Q.

Local Open Scope string_scope.

Definition proc_a : proc_info :=
  {| pid := 1; name := "a"; cpu_percent := Some (PyFloat 5) |}.
Definition proc_b : proc_info :=
  {| pid := 2; name := "b"; cpu_percent := Some (PyFloat 90) |}.
(** Process 3 with the key missing, and with [None] stored under it. *)
Definition proc_c_missing : proc_info :=
  {| pid := 3; name := "c"; cpu_percent := None |}.
Definition proc_c_none : proc_info :=
  {| pid := 3; name := "c"; cpu_percent := Some PyNone |}.

(** Two processes with the same usage, the higher PID listed first. *)
Definition tied_procs : list proc_info :=
  [ {| pid := 2; name := "b"; cpu_percent := Some (PyFloat 1) |};
    {| pid := 1; name := "a"; cpu_percent := Some (PyFloat 1) |} ].

(** A machine on which everything works except the process list. *)
Definition sample_world : world := {|
  getcwd := Ok "/root";
  getlogin := Ok "root";
  gethostname := "host";
  release := "6.1";
  system := "Linux";
  version := "#1";
  lang := None;
  now := "2025-01-01 00:00:00";
  ping := Ok tt;
  net_if_addrs := ["lo"];
  virtual_memory := {| total := 8 * GB; available := 4 * GB;
                       used := 4 * GB; percent := PyFloat 50 |};
  disk_partitions := [("/dev/sda1", "/")];
  disk_usage := fun _ => Ok (PyFloat 40);
  files := sample_fs;
  process_iter := Raise (PermissionError "process list unavailable");
  sensors := Ok "temp1: +40.0 C";
  nvidia_smi_list := Raise (FileNotFoundError "nvidia-smi");
  nvidia_smi_temps := Ok []
|}.

Local Close Scope string_scope.

(** The sections that run before the ranker. *)
Definition sections_before_cpu (w : world) (a : args) (console : bool)
  : M unit :=
  (get_basic_info w console ;;;
   check_network w console ;;;
   show_memory w console ;;;
   show_disks w console ;;;
   largest_files (files w) (arg_path a) (arg_largest a) console)%cmd.

(** The sections that are to run after it. *)
Definition sections_after_cpu (w : world) (a : args) (console : bool)
  : M unit :=
  ((if no_temp a then ret tt else show_temperatures w console) ;;;
   (if no_nvidia a then ret tt else show_nvidia_temperature w console))%cmd.

(** *** The other sections *)

(** The event belongs to the sink that was chosen: [print] without a
    console, [console.print] with one. *)
Definition on_sink (console : bool) (e : event) : bool :=
  match e with
  | PlainPrint _ => negb console
  | ConsolePrint _ _ | ConsolePanel _ _ => console
  end.

(** The line of [show_disks] for one partition whose usage could be read
    or was refused. *)
Definition disk_text (w : world) (p : string * string) : text :=
  match disk_usage w (snd p) with
  | Ok usage =>
      [Interp (PyStr (fst p)); Lit " ("; Interp (PyStr (snd p));
       Lit "): "; Interp usage; Lit "% used"]
  | Raise _ =>
      [Interp (PyStr (fst p)); Lit " ("; Interp (PyStr (snd p));
       Lit "): Permission Denied"]
  end.

(** [disk_usage] answers or fails with [PermissionError]. *)
Definition disk_readable (w : world) (p : string * string) : bool :=
  match disk_usage w (snd p) with
  | Ok _ => true
  | Raise e => is_PermissionError e
  end.

(** The exceptions the two temperature sections handle. *)
Definition tool_failure (e : exn) : bool :=
  is_CalledProcessError e || is_FileNotFoundError e.

Definition handled_by {A} (catches : exn -> bool) (r : result A) : bool :=
  match r with
  | Ok _ => true
  | Raise e => catches e
  end.

Definition interface_events (w : world) (console : bool) : list event :=
  say_event console [Lit (String (ascii_of_nat 10) "Interfaces:")] None
  :: map (fun iface => say_event console [Lit " - "; Interp (PyStr iface)] None)
         (net_if_addrs w).

(** No entry name of the tree starts with a separator (names that
    [os.scandir] returns never contain one). *)
Fixpoint well_named (n : node) : bool :=
  match n with
  | Dir (Some entries) =>
      forallb (fun e => negb (starts_with_sep (fst e)) && well_named (snd e))
              entries
  | _ => true
  end.

(** The loop body of [show_disks] for one partition. *)
Definition disk_body (w : world) (console : bool) (p : string * string)
  : M unit :=
  let '(device, mountpoint) := p in
  (line <- try_except
     (usage <- lift (disk_usage w mountpoint) ;;
      ret [Interp (PyStr device); Lit " ("; Interp (PyStr mountpoint);
           Lit "): "; Interp usage; Lit "% used"])
     is_PermissionError
     (fun _ => ret [Interp (PyStr device); Lit " (";
                    Interp (PyStr mountpoint); Lit "): Permission Denied"]) ;;
   say console line None)%cmd.

(** Worlds that differ from the sample in one collaborator. *)
Definition with_disks (w : world) (parts : list (string * string))
    (usage : string -> result pyval) : world :=
  {| getcwd := getcwd w; getlogin := getlogin w;
     gethostname := gethostname w; release := release w;
     system := system w; version := version w; lang := lang w;
     now := now w; ping := ping w; net_if_addrs := net_if_addrs w;
     virtual_memory := virtual_memory w;
     disk_partitions := parts; disk_usage := usage;
     files := files w; process_iter := process_iter w;
     sensors := sensors w; nvidia_smi_list := nvidia_smi_list w;
     nvidia_smi_temps := nvidia_smi_temps w |}.

Definition with_login (w : world) (login : result string) : world :=
  {| getcwd := getcwd w; getlogin := login;
     gethostname := gethostname w; release := release w;
     system := system w; version := version w; lang := lang w;
     now := now w; ping := ping w; net_if_addrs := net_if_addrs w;
     virtual_memory := virtual_memory w;
     disk_partitions := disk_partitions w; disk_usage := disk_usage w;
     files := files w; process_iter := process_iter w;
     sensors := sensors w; nvidia_smi_list := nvidia_smi_list w;
     nvidia_smi_temps := nvidia_smi_temps w |}.

Definition with_processes (w : world) (ps : result (list proc_info)) : world :=
  {| getcwd := getcwd w; getlogin := getlogin w;
     gethostname := gethostname w; release := release w;
     system := system w; version := version w; lang := lang w;
     now := now w; ping := ping w; net_if_addrs := net_if_addrs w;
     virtual_memory := virtual_memory w;
     disk_partitions := disk_partitions w; disk_usage := disk_usage w;
     files := files w; process_iter := ps;
     sensors := sensors w; nvidia_smi_list := nvidia_smi_list w;
     nvidia_smi_temps := nvidia_smi_temps w |}.

Definition with_tools (w : world) (ping_result : result unit)
    (sensors_output smi_list : result string)
    (smi_temps : result (list string)) : world :=
  {| getcwd := getcwd w; getlogin := getlogin w;
     gethostname := gethostname w; release := release w;
     system := system w; version := version w; lang := lang w;
     now := now w; ping := ping_result; net_if_addrs := net_if_addrs w;
     virtual_memory := virtual_memory w;
     disk_partitions := disk_partitions w; disk_usage := disk_usage w;
     files := files w; process_iter := process_iter w;
     sensors := sensors_output; nvidia_smi_list := smi_list;
     nvidia_smi_temps := smi_temps |}.

Local Open Scope string_scope.

(** Two partitions, the second one failing with an I/O error. *)
Definition broken_disk_world : world :=
  with_disks sample_world [("/dev/sda1", "/"); ("/dev/sdb1", "/mnt")]
    (fun m => if String.eqb m "/" then Ok (PyFloat 40)
              else Raise (OSError "Input/output error")).

Local Close Scope string_scope.

(** Everything the command prints goes to the chosen sink. *)
Definition on_one_sink {A} (console : bool) (m : M A) : Prop :=
  forallb (on_sink console) (fst m) = true.

Local Open Scope string_scope.

(** A directory with a subdirectory that cannot be listed, and the same
    directory without it. *)
Definition locked_fs : filesystem := {|
  tree_at := fun _ =>
    Dir (Some [("a.iso", NonDir); ("locked", Dir None); ("c.log", NonDir)]);
  getsize := getsize sample_fs
|}.

Definition unlocked_fs : filesystem := {|
  tree_at := fun _ => Dir (Some [("a.iso", NonDir); ("c.log", NonDir)]);
  getsize := getsize sample_fs
|}.

Local Close Scope string_scope.

Local Open Scope string_scope.

(** Three processes in ascending PID order, the first two with the same
    usage. *)
Definition tied_ascending : list proc_info :=
  [ {| pid := 1; name := "a"; cpu_percent := Some (PyFloat 1) |};
    {| pid := 2; name := "b"; cpu_percent := Some (PyFloat 1) |};
    {| pid := 3; name := "c"; cpu_percent := Some (PyFloat 5) |} ].

Local Close Scope string_scope.

(** * Properties *)

(** ** Lists *)

Lemma in_firstn {A} (n : nat) (l : list A) (x : A) :
  In x (firstn n l) -> In x l.
Proof.
  intros H. rewrite <- (firstn_skipn n l). apply in_or_app. now left.
Qed.

Lemma in_skipn {A} (n : nat) (l : list A) (x : A) :
  In x (skipn n l) -> In x l.
Proof.
  intros H. rewrite <- (firstn_skipn n l). apply in_or_app. now right.
Qed.

Lemma strongly_sorted_impl {A} (R S : A -> A -> Prop) (l : list A) :
  (forall x y, R x y -> S x y) -> StronglySorted R l -> StronglySorted S l.
Proof.
  intros HRS. induction 1 as [|x xs Hs IH Hx]; constructor; [exact IH|].
  eapply Forall_impl; [|exact Hx]. intros y. apply HRS.
Qed.

(** ** The sort *)

Section SortDesc.
Context {A : Type}.
Variable less : A -> A -> bool.
Local Abbreviation not_below := (not_below less).
Local Abbreviation insert_desc := (insert_desc less).
Local Abbreviation sort_desc := (sort_desc less).

Lemma insert_desc_perm (x : A) (l : list A) :
    Permutation (insert_desc x l) (x :: l).
Proof.
    induction l as [|y ys IH]; simpl; [reflexivity|].
    destruct (less x y); [|reflexivity].
    rewrite IH. apply perm_swap.
Qed.

Lemma sort_desc_perm (l : list A) : Permutation (sort_desc l) l.
Proof.
    induction l as [|x xs IH]; simpl; [reflexivity|].
    rewrite insert_desc_perm. now constructor.
Qed.

Lemma sort_desc_length (l : list A) :
    List.length (sort_desc l) = List.length l.
Proof. apply Permutation_length, sort_desc_perm. Qed.

Lemma sort_desc_In (l : list A) (x : A) : In x (sort_desc l) <-> In x l.
Proof.
    split; apply Permutation_in;
      [apply sort_desc_perm | symmetry; apply sort_desc_perm].
Qed.

  (** Stability: inserting never moves an element past one of its own
      class. *)
Lemma insert_desc_filter (p : A -> bool) (x : A) (l : list A) :
    (forall y, p x = true -> less x y = true -> p y = false) ->
    filter p (insert_desc x l) = filter p (x :: l).
Proof.
    intros Hp. induction l as [|y ys IH]; [reflexivity|].
    simpl insert_desc. destruct (less x y) eqn:Hxy; [|reflexivity].
    simpl in *. rewrite IH.
    destruct (p x) eqn:Hx; [|reflexivity].
    now rewrite (Hp y eq_refl Hxy).
Qed.

Lemma sort_desc_filter (p : A -> bool) (l : list A) :
    (forall x y, p x = true -> less x y = true -> p y = false) ->
    filter p (sort_desc l) = filter p l.
Proof.
    intros Hp. induction l as [|x xs IH]; [reflexivity|].
    simpl sort_desc. rewrite insert_desc_filter by (apply Hp).
    simpl. now rewrite IH.
Qed.

Section Order.
Hypothesis less_asym : forall x y, less x y = true -> less y x = false.
Hypothesis less_ntrans :
      forall x y z, less x y = false -> less y z = false -> less x z = false.

Lemma insert_desc_sorted (x : A) (l : list A) :
      StronglySorted not_below l -> StronglySorted not_below (insert_desc x l).
Proof.
      induction 1 as [|y ys Hs IH Hy]; simpl.
      - repeat constructor.
      - destruct (less x y) eqn:Hxy.
        + constructor; [exact IH|].
          rewrite Forall_forall in *. intros z Hz.
          apply (Permutation_in _ (insert_desc_perm x ys)) in Hz.
          destruct Hz as [<-|Hz]; [now apply less_asym | now apply Hy].
        + constructor; [now constructor|].
          constructor; [exact Hxy|].
          rewrite Forall_forall in *. intros z Hz.
          apply less_ntrans with y; [exact Hxy | now apply Hy].
Qed.

Lemma sort_desc_sorted (l : list A) : StronglySorted not_below (sort_desc l).
Proof.
      induction l as [|x xs IH]; simpl; [constructor|].
      now apply insert_desc_sorted.
Qed.

Lemma sorted_app (l r : list A) :
      StronglySorted not_below l -> StronglySorted not_below r ->
      (forall x y, In x l -> In y r -> not_below x y) ->
      StronglySorted not_below (l ++ r).
Proof.
      induction 1 as [|x xs Hs IH Hx]; intros Hr Hlr; simpl; [exact Hr|].
      constructor.
      - apply IH; [exact Hr|]. intros a b Ha Hb. apply Hlr; [now right|exact Hb].
      - apply Forall_app. split; [exact Hx|].
        rewrite Forall_forall. intros b Hb. apply Hlr; [now left|exact Hb].
Qed.

Lemma sorted_firstn (n : nat) (l : list A) :
      StronglySorted not_below l -> StronglySorted not_below (firstn n l).
Proof.
      intros Hs. revert n.
      induction Hs as [|x xs Hs IH Hx]; intros [|n]; simpl; try constructor.
      - apply IH.
      - rewrite Forall_forall in *. intros y Hy.
        apply Hx. eapply in_firstn, Hy.
Qed.

Lemma sorted_split (n : nat) (l : list A) :
      StronglySorted not_below l ->
      forall x y, In x (firstn n l) -> In y (skipn n l) -> not_below x y.
Proof.
      intros Hs. revert n.
      induction Hs as [|a l Hs IH Ha]; intros [|n] x y Hx Hy; simpl in *;
        try contradiction.
      destruct Hx as [<-|Hx].
      - rewrite Forall_forall in Ha. apply Ha. eapply in_skipn, Hy.
      - now apply (IH n).
Qed.

    (** On a total order two descending lists with the same elements are
        the same list: the output does not depend on the input order. *)
Hypothesis less_total :
      forall x y, less x y = false -> less y x = false -> x = y.

Lemma sorted_perm_unique (l1 l2 : list A) :
      StronglySorted not_below l1 -> StronglySorted not_below l2 ->
      Permutation l1 l2 -> l1 = l2.
Proof.
      intros H1. revert l2.
      induction H1 as [|a l1 Hs1 IH Ha]; intros l2 H2 Hp.
      - apply Permutation_nil in Hp. now subst.
      - destruct H2 as [|b l2 Hs2 Hb].
        + symmetry in Hp. apply Permutation_nil in Hp. discriminate.
        + assert (a = b) as ->.
          { assert (Hin1 : In a (b :: l2))
              by (eapply Permutation_in; [exact Hp | now left]).
            assert (Hin2 : In b (a :: l1))
              by (eapply Permutation_in; [symmetry; exact Hp | now left]).
            rewrite Forall_forall in Ha, Hb.
            destruct Hin1 as [->|Hin1]; [reflexivity|].
            destruct Hin2 as [->|Hin2]; [reflexivity|].
            apply less_total; [now apply Ha | now apply Hb]. }
          f_equal. apply IH; [exact Hs2|].
          now apply Permutation_cons_inv in Hp.
Qed.

Lemma sort_desc_perm_invariant (l1 l2 : list A) :
      Permutation l1 l2 -> sort_desc l1 = sort_desc l2.
Proof.
      intros Hp. apply sorted_perm_unique; try apply sort_desc_sorted.
      rewrite !sort_desc_perm. exact Hp.
Qed.

    (** The best [n] of a list, characterised without positions: a
        descending list of the right length that dominates what is left. *)
Lemma top_unique (n : nat) (l top rest : list A) :
      StronglySorted not_below top ->
      Permutation l (top ++ rest) ->
      List.length top = Nat.min n (List.length l) ->
      (forall x y, In x top -> In y rest -> not_below x y) ->
      top = firstn n (sort_desc l).
Proof.
      intros Hs Hp Hlen Hdom.
      assert (Heq : top ++ sort_desc rest = sort_desc l).
      { apply sorted_perm_unique.
        - apply sorted_app; [exact Hs | apply sort_desc_sorted |].
          intros x y Hx Hy. apply Hdom; [exact Hx|].
          apply (proj1 (sort_desc_In rest y)). exact Hy.
        - apply sort_desc_sorted.
        - rewrite sort_desc_perm, sort_desc_perm. now symmetry. }
      rewrite <- Heq.
      assert (Hn : (List.length top <= n)%nat) by lia.
      rewrite firstn_app.
      assert (Hle : (List.length l <= n)%nat \/ List.length top = n) by lia.
      destruct Hle as [Hle| <-].
      - assert (Hr : rest = []).
        { apply Permutation_length in Hp. rewrite length_app in Hp.
          destruct rest; [reflexivity|]. simpl in Hp. lia. }
        subst rest. simpl. rewrite firstn_nil, app_nil_r.
        now rewrite firstn_all2.
      - now rewrite firstn_all, Nat.sub_diag, firstn_O, app_nil_r.
Qed.
End Order.
End SortDesc.

(** The monadic sort against the pure one. *)
Section SortedRev.
Context {A K : Type}.
Variable lt : K -> K -> result bool.
Variable key : A -> K.
Variable less : A -> A -> bool.

Lemma insert_rev_pure (x : A) (l : list A) :
    (forall y, In y l -> lt (key x) (key y) = Ok (less x y)) ->
    insert_rev lt key x l = Ok (insert_desc less x l).
Proof.
    induction l as [|y ys IH]; intros H; [reflexivity|].
    simpl. rewrite (H y) by now left. simpl.
    destruct (less x y); [|reflexivity].
    rewrite IH; [reflexivity|]. intros z Hz. apply H. now right.
Qed.

Lemma sorted_rev_pure (l : list A) :
    (forall x y, In x l -> In y l -> lt (key x) (key y) = Ok (less x y)) ->
    sorted_rev lt key l = Ok (sort_desc less l).
Proof.
    induction l as [|x xs IH]; intros H; [reflexivity|].
    simpl. rewrite IH by (intros; apply H; now right). simpl.
    apply insert_rev_pure. intros y Hy. apply sort_desc_In in Hy.
    apply H; [now left | now right].
Qed.
End SortedRev.

(** ** The order on [(size, path)] tuples *)

(** A three-way comparison that is a total order gives a [less] that
    the sort lemmas accept. *)
Section FromCompare.
Context {A : Type}.
Variable cmp : A -> A -> comparison.
Local Abbreviation less_of := (less_of cmp).
Hypothesis cmp_eq : forall x y, cmp x y = Eq -> x = y.
Hypothesis cmp_antisym : forall x y, cmp x y = CompOpp (cmp y x).
Hypothesis cmp_lt_trans :
  forall x y z, cmp x y = Lt -> cmp y z = Lt -> cmp x z = Lt.

Lemma less_of_asym x y : less_of x y = true -> less_of y x = false.
Proof.
  unfold less_of. rewrite (cmp_antisym y x).
  now destruct (cmp x y).
Qed.

Lemma less_of_ntrans x y z :
  less_of x y = false -> less_of y z = false -> less_of x z = false.
Proof.
  unfold less_of. intros Hxy Hyz.
  destruct (cmp x z) eqn:Hxz; try reflexivity.
  destruct (cmp x y) eqn:Exy; try discriminate.
  - apply cmp_eq in Exy. subst y. now rewrite Hxz in Hyz.
  - assert (Hyx : cmp y x = Lt) by (rewrite cmp_antisym, Exy; reflexivity).
    now rewrite (cmp_lt_trans y x z Hyx Hxz) in Hyz.
Qed.

Lemma less_of_total x y :
  less_of x y = false -> less_of y x = false -> x = y.
Proof.
  unfold less_of. rewrite (cmp_antisym y x).
  destruct (cmp x y) eqn:E; try discriminate.
  intros _ _. now apply cmp_eq.
Qed.
End FromCompare.

Lemma ascii_compare_refl (a : ascii) : Ascii.compare a a = Eq.
Proof. unfold Ascii.compare. apply N.compare_refl. Qed.

Lemma ascii_compare_lt_trans (a b c : ascii) :
  Ascii.compare a b = Lt -> Ascii.compare b c = Lt -> Ascii.compare a c = Lt.
Proof.
  unfold Ascii.compare. rewrite !N.compare_lt_iff. apply N.lt_trans.
Qed.

Lemma string_compare_lt_trans (a b c : string) :
  String.compare a b = Lt -> String.compare b c = Lt -> String.compare a c = Lt.
Proof.
  revert b c. induction a as [|x a IH]; intros [|y b] [|z c]; simpl;
    try discriminate; try reflexivity.
  destruct (Ascii.compare x y) eqn:Exy; try discriminate;
    destruct (Ascii.compare y z) eqn:Eyz; try discriminate; intros Hab Hbc.
  - apply Ascii.compare_eq_iff in Exy, Eyz. subst.
    rewrite ascii_compare_refl. now apply IH with b.
  - apply Ascii.compare_eq_iff in Exy. subst. now rewrite Eyz.
  - apply Ascii.compare_eq_iff in Eyz. subst. now rewrite Exy.
  - now rewrite (ascii_compare_lt_trans x y z Exy Eyz).
Qed.

Lemma tuple_ltb_compare (a b : file_entry) :
  tuple_ltb a b = less_of tuple_compare a b.
Proof.
  unfold tuple_ltb, less_of, tuple_compare, String.ltb.
  destruct (N.eqb_spec (fst a) (fst b)) as [E|E].
  - rewrite E, N.compare_refl. reflexivity.
  - unfold N.ltb. destruct (fst a ?= fst b)%N eqn:C; try reflexivity.
    apply N.compare_eq in C. contradiction.
Qed.

Lemma tuple_compare_eq (a b : file_entry) : tuple_compare a b = Eq -> a = b.
Proof.
  unfold tuple_compare. destruct a as [s p], b as [t q]; simpl.
  destruct (s ?= t)%N eqn:E; try discriminate.
  apply N.compare_eq in E. intros H. apply String.compare_eq_iff in H.
  now subst.
Qed.

Lemma tuple_compare_antisym (a b : file_entry) :
  tuple_compare a b = CompOpp (tuple_compare b a).
Proof.
  unfold tuple_compare. rewrite (N.compare_antisym (fst a) (fst b)).
  destruct (fst a ?= fst b)%N; simpl; try reflexivity.
  apply String.compare_antisym.
Qed.

Lemma tuple_compare_lt_trans (a b c : file_entry) :
  tuple_compare a b = Lt -> tuple_compare b c = Lt -> tuple_compare a c = Lt.
Proof.
  unfold tuple_compare.
  destruct (fst a ?= fst b)%N eqn:Eab; try discriminate;
    destruct (fst b ?= fst c)%N eqn:Ebc; try discriminate; intros H1 H2.
  - apply N.compare_eq in Eab, Ebc. rewrite Eab, Ebc, N.compare_refl.
    now apply string_compare_lt_trans with (snd b).
  - apply N.compare_eq in Eab. now rewrite Eab, Ebc.
  - apply N.compare_eq in Ebc. now rewrite <- Ebc, Eab.
  - rewrite N.compare_lt_iff in *.
    assert (H : (fst a < fst c)%N) by (eapply N.lt_trans; eassumption).
    apply N.compare_lt_iff in H. now rewrite H.
Qed.

Lemma tuple_ltb_asym a b : tuple_ltb a b = true -> tuple_ltb b a = false.
Proof.
  rewrite !tuple_ltb_compare. apply less_of_asym, tuple_compare_antisym.
Qed.

Lemma tuple_ltb_ntrans a b c :
  tuple_ltb a b = false -> tuple_ltb b c = false -> tuple_ltb a c = false.
Proof.
  rewrite !tuple_ltb_compare.
  apply less_of_ntrans;
    [apply tuple_compare_eq | apply tuple_compare_antisym
     | apply tuple_compare_lt_trans].
Qed.

Lemma tuple_ltb_total a b :
  tuple_ltb a b = false -> tuple_ltb b a = false -> a = b.
Proof.
  rewrite !tuple_ltb_compare.
  apply less_of_total; [apply tuple_compare_eq | apply tuple_compare_antisym].
Qed.

(** Discharges the order hypotheses of the sort lemmas for tuples. *)
Ltac tuple_order :=
  first [exact tuple_ltb_asym | exact tuple_ltb_ntrans | exact tuple_ltb_total].

(** ** Commands *)

Lemma for_each_say {A} (console : bool) (f : A -> text)
    (style : option string) (l : list A) :
  for_each l (fun x => say console (f x) style)
  = (map (fun x => say_event console (f x) style) l, Ok tt).
Proof.
  induction l as [|x xs IH]; [reflexivity|].
  simpl. rewrite IH. unfold bind, say, say_event, emit.
  now destruct console.
Qed.

Lemma say_emits (console : bool) (t : text) (style : option string) :
  say console t style = ([say_event console t style], Ok tt).
Proof. unfold say, say_event, emit. now destruct console. Qed.

Lemma header_emits (title : text) (console : bool) :
  header title console = ([header_event title console], Ok tt).
Proof. unfold header, header_event, emit. now destruct console. Qed.

(** ** The file scanner *)

Lemma descending_not_below (a b : file_entry) :
  not_below tuple_ltb a b <-> descending a b.
Proof.
  unfold not_below, descending, tuple_ltb, String.ltb.
  destruct (N.eqb_spec (fst a) (fst b)) as [E|E].
  - split.
    + intros H. right. split; [exact E|]. intros C. now rewrite C in H.
    + intros [H|[_ H]]; [lia|]. now destruct (String.compare (snd a) (snd b)).
  - rewrite N.ltb_ge. split.
    + intros H. left. lia.
    + intros [H|[H _]]; [lia | contradiction].
Qed.

Lemma selected_sorted (files : list file_entry) (count : Z) :
  selected files count = Ok (slice_to (sort_desc tuple_ltb files) count).
Proof.
  unfold selected.
  rewrite (sorted_rev_pure tuple_lt (fun e => e) tuple_ltb) by reflexivity.
  reflexivity.
Qed.

(** The sort of tuples cannot raise, so the handler of [largest_files]
    never runs: the section prints its header and one line per selected
    entry. *)
Lemma largest_files_output (fs : filesystem) (path : string) (count : Z)
    (console : bool) :
  largest_files fs path count console
  = (header_event (files_title count path) console
       :: file_events console
            (slice_to (sort_desc tuple_ltb (collect fs path)) count),
     Ok tt).
Proof.
  unfold largest_files. rewrite header_emits, selected_sorted.
  unfold lift, bind at 2. rewrite for_each_say. reflexivity.
Qed.

Lemma sort_files_sorted (files : list file_entry) :
  StronglySorted descending (sort_desc tuple_ltb files).
Proof.
  apply strongly_sorted_impl with (R := not_below tuple_ltb).
  - intros x y. apply descending_not_below.
  - apply sort_desc_sorted; tuple_order.
Qed.

Lemma slice_to_nonneg {A} (l : list A) (count : Z) :
  (0 <= count)%Z -> slice_to l count = firstn (Z.to_nat count) l.
Proof. unfold slice_to. intros H. apply Z.leb_le in H. now rewrite H. Qed.

Lemma slice_to_neg {A} (l : list A) (count : Z) :
  (count < 0)%Z ->
  slice_to l count = firstn (List.length l - Z.to_nat (- count)) l.
Proof.
  unfold slice_to. intros H.
  destruct (Z.leb_spec 0 count); [lia|]. f_equal. lia.
Qed.

(** Whatever the bound, the slice of the sorted list is a descending
    prefix that dominates the entries left out. *)
Lemma sorted_prefix (files : list file_entry) (n : nat) :
  let top := firstn n (sort_desc tuple_ltb files) in
  let rest := skipn n (sort_desc tuple_ltb files) in
  StronglySorted descending top /\
  Permutation files (top ++ rest) /\
  (forall x y, In x top -> In y rest -> descending x y).
Proof.
  intros top rest. split; [|split].
  - apply strongly_sorted_impl with (R := not_below tuple_ltb).
    + intros x y. apply descending_not_below.
    + apply sorted_firstn, sort_desc_sorted; tuple_order.
  - unfold top, rest. rewrite firstn_skipn. symmetry. apply sort_desc_perm.
  - intros x y Hx Hy. apply descending_not_below.
    eapply sorted_split; [| exact Hx | exact Hy].
    apply sort_desc_sorted; tuple_order.
Qed.

(** C2. For every root and every count [K >= 0] the scanner prints
    exactly [min K (number of collected entries)] entries, without an
    error: they are listed by size descending, equal sizes by path
    descending, and no entry left out is larger than a listed one.  With
    [K = 0] nothing is listed; with fewer than [K] collected entries all
    of them are. *)
Theorem largest_files_top_k (fs : filesystem) (path : string) (count : Z)
    (console : bool) :
  (0 <= count)%Z ->
  exists top rest : list file_entry,
    selected (collect fs path) count = Ok top /\
    largest_files fs path count console
    = (header_event (files_title count path) console
         :: file_events console top, Ok tt) /\
    List.length top
    = Nat.min (Z.to_nat count) (List.length (collect fs path)) /\
    StronglySorted descending top /\
    Permutation (collect fs path) (top ++ rest) /\
    (forall x y, In x top -> In y rest -> descending x y) /\
    (count = 0%Z -> top = []) /\
    ((List.length (collect fs path) <= Z.to_nat count)%nat -> rest = []).
Proof.
  intros Hc.
  set (files := collect fs path).
  set (s := sort_desc tuple_ltb files).
  exists (firstn (Z.to_nat count) s), (skipn (Z.to_nat count) s).
  destruct (sorted_prefix files (Z.to_nat count)) as (Hs & Hp & Hd).
  repeat split.
  - rewrite selected_sorted. now rewrite slice_to_nonneg.
  - rewrite largest_files_output. now rewrite slice_to_nonneg.
  - rewrite length_firstn. unfold s. now rewrite sort_desc_length.
  - exact Hs.
  - exact Hp.
  - exact Hd.
  - intros ->. reflexivity.
  - intros Hle. apply skipn_all2. unfold s. now rewrite sort_desc_length.
Qed.

Lemma largest_files_top_k_witness :
  (0 <= 2)%Z /\
  exists top : list file_entry,
    selected (collect sample_fs "/data") 2 = Ok top /\ List.length top = 2%nat.
Proof.
  split; [lia|].
  destruct (largest_files_top_k sample_fs "/data" 2 false)
    as (top & rest & Hsel & _ & Hlen & _); [lia|].
  exists top. split; [exact Hsel | exact Hlen].
Defined.

(** C10. For a negative count [K] and [L] collected entries the scanner
    does not fail: it lists the [L + K] largest entries, that is all but
    the [|K|] smallest, when [L > |K|], and nothing when [L <= |K|]. *)
Theorem largest_files_negative_count (fs : filesystem) (path : string)
    (count : Z) (console : bool) :
  (count < 0)%Z ->
  let L := List.length (collect fs path) in
  let k := Z.to_nat (- count) in
  exists top rest : list file_entry,
    selected (collect fs path) count = Ok top /\
    largest_files fs path count console
    = (header_event (files_title count path) console
         :: file_events console top, Ok tt) /\
    List.length top = (L - k)%nat /\
    List.length rest = Nat.min k L /\
    StronglySorted descending top /\
    Permutation (collect fs path) (top ++ rest) /\
    (forall x y, In x top -> In y rest -> descending x y) /\
    ((L <= k)%nat -> top = []) /\
    ((k < L)%nat -> top <> []).
Proof.
  intros Hc L k.
  set (files := collect fs path).
  set (s := sort_desc tuple_ltb files).
  assert (Hs_len : List.length s = L)
    by (unfold s, L; apply sort_desc_length).
  exists (firstn (L - k) s), (skipn (L - k) s).
  destruct (sorted_prefix files (L - k)) as (Hs & Hp & Hd).
  assert (Hslice : slice_to s count = firstn (L - k) s).
  { rewrite slice_to_neg by exact Hc. now rewrite Hs_len. }
  assert (Htop : List.length (firstn (L - k) s) = (L - k)%nat)
    by (rewrite length_firstn; lia).
  repeat split.
  - rewrite selected_sorted. fold files s. now rewrite Hslice.
  - rewrite largest_files_output. fold files s. now rewrite Hslice.
  - exact Htop.
  - rewrite length_skipn. lia.
  - exact Hs.
  - exact Hp.
  - exact Hd.
  - intros Hle. replace (L - k)%nat with 0%nat by lia. reflexivity.
  - intros Hlt Hnil. rewrite Hnil in Htop. simpl in Htop. lia.
Qed.

Lemma largest_files_negative_count_witness :
  (-1 < 0)%Z /\
  exists top : list file_entry,
    selected (collect sample_fs "/data") (-1) = Ok top /\
    List.length top = 2%nat.
Proof.
  split; [lia|].
  destruct (largest_files_negative_count sample_fs "/data" (-1) false)
    as (top & rest & Hsel & _ & Hlen & _); [lia|].
  exists top. split; [exact Hsel | exact Hlen].
Defined.

(** ** Entries that cannot be measured *)

Lemma measure_measured (fs : filesystem) (root : string)
    (filenames : list string) :
  measure fs root filenames
  = flat_map (measured fs) (map (path_join root) filenames).
Proof.
  induction filenames as [|fname rest IH]; [reflexivity|].
  simpl. unfold measured at 1.
  destruct (getsize fs (path_join root fname)); simpl; now rewrite IH.
Qed.

Lemma collect_measured (fs : filesystem) (path : string) :
  collect fs path = flat_map (measured fs) (candidates fs path).
Proof.
  unfold collect, candidates.
  induction (os_walk path (tree_at fs path)) as [|[[root dirs] names] w IH];
    [reflexivity|].
  simpl. rewrite flat_map_app, IH, measure_measured. reflexivity.
Qed.

Lemma in_collect (fs : filesystem) (path : string) (s : N) (p : string) :
  In (s, p) (collect fs path)
  <-> In p (candidates fs path) /\ getsize fs p = Some s.
Proof.
  rewrite collect_measured, in_flat_map. unfold measured. split.
  - intros (q & Hq & Hin). destruct (getsize fs q) eqn:E; [|contradiction].
    destruct Hin as [Heq|[]]. inversion Heq; subst. now split.
  - intros (Hin & Hsz). exists p. split; [exact Hin|].
    rewrite Hsz. now left.
Qed.

Lemma file_events_no_error (console : bool) (top : list file_entry) :
  existsb is_error_event (file_events console top) = false.
Proof.
  induction top as [|e top IH]; [reflexivity|].
  simpl. rewrite IH. now destruct console.
Qed.

(** C5. An entry whose size cannot be read is skipped and nothing else:
    the collected pairs are those of the measurable candidates, in the
    order of the walk; a path that cannot be measured is collected with
    no size at all (so never with size zero); every measurable candidate
    is collected whatever failed before it; and the section ends
    normally without an error line. *)
Theorem unmeasurable_entries_skipped (fs : filesystem) (path : string)
    (count : Z) (console : bool) :
  collect fs path = flat_map (measured fs) (candidates fs path) /\
  (forall p, In p (candidates fs path) -> getsize fs p = None ->
             forall s, ~ In (s, p) (collect fs path)) /\
  (forall p s, In p (candidates fs path) -> getsize fs p = Some s ->
               In (s, p) (collect fs path)) /\
  (exists out, largest_files fs path count console = (out, Ok tt) /\
               existsb is_error_event out = false).
Proof.
  split; [apply collect_measured|]. split; [|split].
  - intros p _ Hnone s Hin. apply in_collect in Hin.
    destruct Hin as [_ Hsz]. congruence.
  - intros p s Hin Hsz. apply in_collect. now split.
  - eexists. split; [apply largest_files_output|].
    simpl. rewrite file_events_no_error. now destruct console.
Qed.

(** ** A root that cannot be opened *)

(** C1. When the root cannot be listed, the walk yields nothing and
    swallows the failure: the section prints its header and nothing
    else, ends normally, and no error line is produced.  The output is
    the one of an empty directory. *)
Theorem largest_files_unopenable_root (fs : filesystem) (path : string)
    (count : Z) (console : bool) :
  tree_at fs path = Dir None ->
  largest_files fs path count console
  = ([header_event (files_title count path) console], Ok tt) /\
  largest_files fs path count console
  = largest_files {| tree_at := fun _ => Dir (Some []);
                     getsize := getsize fs |} path count console.
Proof.
  intros Hroot. rewrite !largest_files_output. unfold collect. simpl.
  rewrite Hroot. simpl. unfold slice_to.
  destruct (0 <=? count)%Z; simpl; rewrite firstn_nil; now split.
Qed.

Lemma largest_files_unopenable_root_witness :
  tree_at sample_fs "/nonexistent" = Dir None /\
  largest_files sample_fs "/nonexistent" 3 false
  = ([header_event (files_title 3 "/nonexistent") false], Ok tt).
Proof.
  split; [reflexivity|].
  apply (largest_files_unopenable_root sample_fs "/nonexistent" 3 false).
  reflexivity.
Defined.

(** ** The size column *)

Lemma string_app_assoc (a b c : string) :
  ((a ++ b) ++ c = a ++ (b ++ c))%string.
Proof. induction a as [|x a IH]; simpl; [reflexivity | now rewrite IH]. Qed.

Lemma round_half_even_near (a b : Z) :
  (0 < b)%Z -> (2 * Z.abs (round_half_even a b * b - a) <= b)%Z.
Proof.
  intros Hb. unfold round_half_even.
  pose proof (Z.div_mod a b ltac:(lia)) as Hdiv.
  pose proof (Z.mod_pos_bound a b Hb) as Hmod.
  set (q := (a / b)%Z) in *. set (r := (a mod b)%Z) in *.
  destruct (Z.compare_spec (2 * r) b); [destruct (Z.even q)| |]; nia.
Qed.

Lemma round_half_even_nonneg (a b : Z) :
  (0 <= a)%Z -> (0 < b)%Z -> (0 <= round_half_even a b)%Z.
Proof.
  intros Ha Hb. unfold round_half_even.
  pose proof (Z.div_pos a b Ha Hb).
  destruct (2 * (a mod b) ?= b)%Z; [destruct (Z.even (a / b))| |]; lia.
Qed.

Lemma digit_is_decimal (d : Z) :
  (0 <= d <= 9)%Z -> is_decimal_digit (digit d) = true.
Proof.
  intros Hd. unfold is_decimal_digit, digit.
  rewrite N_ascii_embedding by lia.
  apply andb_true_intro. split; apply N.leb_le; lia.
Qed.

Lemma mod10_range (z : Z) : (0 <= z mod 10 <= 9)%Z.
Proof. pose proof (Z.mod_pos_bound z 10 ltac:(lia)). lia. Qed.

Lemma string_of_uint_digits (d : Decimal.uint) :
  all_digits (NilEmpty.string_of_uint d) = true.
Proof. induction d; simpl; auto. Qed.

Lemma decimal_digits (z : Z) : all_digits (decimal z) = true.
Proof.
  unfold decimal, NilZero.string_of_uint.
  destruct (N.to_uint (Z.to_N z)) eqn:E; try reflexivity;
    rewrite <- E; apply string_of_uint_digits.
Qed.

Lemma round53_small (n : N) : (n < 2 ^ 53)%N -> round53 n = n.
Proof.
  intros Hn. unfold round53.
  destruct (N.leb_spec (N.size n) 53) as [_|Hs]; [reflexivity|].
  exfalso. destruct (N.eq_dec n 0) as [->|Hz]; [simpl in Hs; lia|].
  rewrite N.size_log2 in Hs by exact Hz.
  assert (Hlog : (N.log2 n < 53)%N) by (apply N.log2_lt_pow2; lia).
  lia.
Qed.

(** What [format_2f] prints for a quotient [r / 1024^k] that is not
    negative. *)
Lemma format_2f_quotient (r : N) (k : positive) :
  let h := hundredths (Z.of_N r # 1024 ^ k) in
  format_2f (Z.of_N r # 1024 ^ k)
  = (decimal (h / 100)
       ++ String "." (String (digit (h / 10 mod 10))
                        (String (digit (h mod 10)) "")))%string
  /\ (0 <= h)%Z
  /\ (2 * Z.abs (h * Zpos (1024 ^ k) - 100 * Z.of_N r) <= Zpos (1024 ^ k))%Z.
Proof.
  intros h. unfold format_2f. fold h.
  assert (Hnum : (0 <= Z.of_N r)%Z) by lia.
  split; [|split].
  - simpl Qnum. destruct (Z.ltb_spec (Z.of_N r) 0); [lia | reflexivity].
  - apply round_half_even_nonneg; simpl; lia.
  - unfold h, hundredths. simpl Qnum. simpl Qden.
    rewrite (Z.abs_eq (Z.of_N r)) by exact Hnum.
    replace (100 * Z.of_N r)%Z with (Z.of_N r * 100)%Z by lia.
    apply round_half_even_near. lia.
Qed.

Lemma formatted_size_shape (size : N) (k : positive) (unit : string) :
  let h := hundredths (true_div_1024 size k) in
  (format_2f (true_div_1024 size k) ++ unit)%string
  = (decimal (h / 100)
       ++ String "." (String (digit (h / 10 mod 10))
                        (String (digit (h mod 10)) unit)))%string.
Proof.
  intros h. unfold true_div_1024 in *.
  destruct (format_2f_quotient (round53 size) k) as (Hfmt & _).
  fold h in Hfmt. rewrite Hfmt, string_app_assoc. reflexivity.
Qed.

Lemma round_half_even_tie (a b : Z) :
  (0 < b)%Z ->
  (2 * Z.abs (round_half_even a b * b - a) = b)%Z ->
  Z.even (round_half_even a b) = true.
Proof.
  intros Hb. unfold round_half_even.
  pose proof (Z.div_mod a b ltac:(lia)) as Hdiv.
  pose proof (Z.mod_pos_bound a b Hb) as Hmod.
  set (q := (a / b)%Z) in *. set (r := (a mod b)%Z) in *.
  destruct (Z.compare_spec (2 * r) b) as [He|Hl|Hg].
  - intros _. destruct (Z.even q) eqn:Eq; [exact Eq|].
    rewrite Z.even_add, Eq. reflexivity.
  - intros H. exfalso. nia.
  - intros H. exfalso. nia.
Qed.

(** [round53] is the nearest multiple of the spacing of the doubles
    around [n], ties to the even multiple; below 2^53 every integer is a
    double. *)
Lemma round53_nearest (n : N) :
  (n < 2 ^ 53)%N /\ round53 n = n \/
  exists sh : N,
    (0 < sh)%N /\ (2 ^ (52 + sh) <= n < 2 ^ (53 + sh))%N /\
    (round53 n mod 2 ^ sh = 0)%N /\
    (2 * Z.abs (Z.of_N (round53 n) - Z.of_N n) <= Z.of_N (2 ^ sh))%Z /\
    ((2 * Z.abs (Z.of_N (round53 n) - Z.of_N n) = Z.of_N (2 ^ sh))%Z ->
     N.even (round53 n / 2 ^ sh) = true).
Proof.
  destruct (N.lt_ge_cases n (2 ^ 53)) as [Hlt|Hge].
  { left. split; [exact Hlt | now apply round53_small]. }
  right. unfold round53.
  assert (Hn0 : n <> 0%N).
  { intros ->. apply N.le_ngt in Hge. apply Hge. reflexivity. }
  assert (Hsize : (53 < N.size n)%N).
  { rewrite N.size_log2 by exact Hn0.
    apply N.lt_succ_r, N.log2_le_pow2; lia. }
  destruct (N.leb_spec (N.size n) 53) as [Hle|_]; [lia|].
  set (sh := (N.size n - 53)%N).
  assert (Hsh : (0 < sh)%N) by (unfold sh; lia).
  exists sh. split; [exact Hsh|].
  assert (Hbits : (53 + sh = N.size n)%N) by (unfold sh; lia).
  assert (Hlow : (2 ^ (52 + sh) <= n)%N).
  { replace (52 + sh)%N with (N.log2 n).
    - apply N.log2_spec. lia.
    - rewrite N.size_log2 in Hbits by exact Hn0. lia. }
  split; [split; [exact Hlow | rewrite Hbits; apply N.size_gt]|].
  assert (Hpow : (2 ^ sh = 2 * 2 ^ (sh - 1))%N).
  { rewrite <- N.pow_succ_r'. f_equal. lia. }
  assert (Hpos : (0 < 2 ^ (sh - 1))%N) by (apply N.neq_0_lt_0, N.pow_nonzero; lia).
  rewrite N.shiftr_div_pow2, N.shiftl_mul_pow2.
  pose proof (N.div_mod n (2 ^ sh) ltac:(lia)) as Hdiv.
  pose proof (N.mod_lt n (2 ^ sh) ltac:(lia)) as Hmod.
  set (q := (n / 2 ^ sh)%N) in *. set (rm := (n mod 2 ^ sh)%N) in *.
  set (half := (2 ^ (sh - 1))%N) in *.
  set (P := (2 ^ sh)%N) in *.
  assert (HP : P <> 0%N) by lia.
  destruct (N.ltb_spec half rm) as [Hup|Hdown]; simpl orb.
  - rewrite N.Div0.mod_mul, N.div_mul by exact HP.
    split; [reflexivity|]. split; [lia|]. intros H. exfalso. lia.
  - destruct (N.eqb_spec rm half) as [Heq|Hne]; simpl andb.
    + destruct (N.odd q) eqn:Hodd.
      * rewrite N.Div0.mod_mul, N.div_mul by exact HP.
        split; [reflexivity|]. split; [lia|]. intros _.
        replace (q + 1)%N with (N.succ q) by lia.
        now rewrite N.even_succ.
      * rewrite N.Div0.mod_mul, N.div_mul by exact HP.
        split; [reflexivity|]. split; [lia|]. intros _.
        now rewrite <- N.negb_odd, Hodd.
    + rewrite N.Div0.mod_mul, N.div_mul by exact HP.
      split; [reflexivity|]. split; [lia|]. intros H. exfalso. lia.
Qed.

(** C7. The size column of every listed entry is the quotient of the
    size by 2^30 followed by " GB" exactly when the size is at least
    2^30 bytes, and the quotient by 2^20 followed by " MB" otherwise.
    The quotient is the one of the float [r] nearest to the size (the
    size itself below 2^53; above, the nearest multiple of the spacing
    of the floats there, ties to the even one).  It is printed as the
    decimal digits of its integer part, a point and exactly two decimal
    digits, which together read the number of hundredths [h] nearest to
    the quotient, ties to the even number.  For files of 500 MB, 2 GB
    and 10 MB and a count of 2 the section lists 2.00 GB and 500.00 MB,
    in that order. *)
Theorem formatted_size_two_decimals :
  (forall size : N,
     exists (r : N) (h : Z) (k : positive) (unit : string),
       ((1024 ^ 3 <= size)%N /\ k = 3%positive /\ unit = " GB"%string \/
        (size < 1024 ^ 3)%N /\ k = 2%positive /\ unit = " MB"%string) /\
       ((size < 2 ^ 53)%N /\ r = size \/
        exists sh : N,
          (0 < sh)%N /\ (2 ^ (52 + sh) <= size < 2 ^ (53 + sh))%N /\
          (r mod 2 ^ sh = 0)%N /\
          (2 * Z.abs (Z.of_N r - Z.of_N size) <= Z.of_N (2 ^ sh))%Z /\
          ((2 * Z.abs (Z.of_N r - Z.of_N size) = Z.of_N (2 ^ sh))%Z ->
           N.even (r / 2 ^ sh) = true)) /\
       (0 <= h)%Z /\
       (2 * Z.abs (h * Zpos (1024 ^ k) - 100 * Z.of_N r)
        <= Zpos (1024 ^ k))%Z /\
       ((2 * Z.abs (h * Zpos (1024 ^ k) - 100 * Z.of_N r)
         = Zpos (1024 ^ k))%Z -> Z.even h = true) /\
       formatted_size size
       = (NilZero.string_of_uint (N.to_uint (Z.to_N (h / 100)))
            ++ String "."
                 (String (ascii_of_N (48 + Z.to_N (h / 10 mod 10)))
                    (String (ascii_of_N (48 + Z.to_N (h mod 10)))
                       unit)))%string /\
       all_digits (NilZero.string_of_uint (N.to_uint (Z.to_N (h / 100))))
       = true /\
       is_decimal_digit (ascii_of_N (48 + Z.to_N (h / 10 mod 10))) = true /\
       is_decimal_digit (ascii_of_N (48 + Z.to_N (h mod 10))) = true) /\
  largest_files sample_fs "/data" 2 false
  = ([ header_event (files_title 2 "/data") false;
       PlainPrint [Interp (PyStr "2.00 GB"); Lit " - ";
                   Interp (PyStr "/data/sub/b.img")];
       PlainPrint [Interp (PyStr "500.00 MB"); Lit " - ";
                   Interp (PyStr "/data/a.iso")] ],
     Ok tt).
Proof.
  split; [|vm_compute; reflexivity].
  intros size.
  assert (Hcase :
    exists (k : positive) (unit : string),
      ((1024 ^ 3 <= size)%N /\ k = 3%positive /\ unit = " GB"%string \/
       (size < 1024 ^ 3)%N /\ k = 2%positive /\ unit = " MB"%string) /\
      formatted_size size
      = (format_2f (true_div_1024 size k) ++ unit)%string).
  { unfold formatted_size.
    destruct (N.leb_spec (1024 ^ 3) size) as [Hge|Hlt].
    - exists 3%positive, " GB"%string. split; [left; now repeat split|].
      reflexivity.
    - exists 2%positive, " MB"%string. split; [right; now repeat split|].
      reflexivity. }
  destruct Hcase as (k & unit & Hunit & Hfmt).
  exists (round53 size), (hundredths (true_div_1024 size k)), k, unit.
  destruct (format_2f_quotient (round53 size) k) as (_ & Hpos & Hnear).
  fold (true_div_1024 size k) in Hpos, Hnear.
  split; [exact Hunit|]. split; [apply round53_nearest|].
  split; [exact Hpos|]. split; [exact Hnear|]. split; [|split; [|split; [|split]]].
  - unfold hundredths, true_div_1024. simpl Qnum. simpl Qden.
    rewrite (Z.abs_eq (Z.of_N (round53 size))) by lia.
    replace (100 * Z.of_N (round53 size))%Z
      with (Z.of_N (round53 size) * 100)%Z by lia.
    apply round_half_even_tie. lia.
  - rewrite Hfmt. apply formatted_size_shape.
  - apply decimal_digits.
  - apply digit_is_decimal, mod10_range.
  - apply digit_is_decimal, mod10_range.
Qed.

(** ** Order of traversal and bounded selection *)

Lemma tuple_eqb_eq (a b : file_entry) : tuple_eqb a b = true <-> a = b.
Proof.
  unfold tuple_eqb. destruct a as [s p], b as [t q]; simpl.
  rewrite andb_true_iff, N.eqb_eq, String.eqb_eq.
  split; [intros [-> ->]; reflexivity | intros H; inversion H; now split].
Qed.

Lemma heap_min_none (h : list file_entry) : heap_min h = None -> h = [].
Proof.
  destruct h as [|x rest]; [reflexivity|].
  simpl. now destruct (heap_min rest).
Qed.

Lemma heap_min_least (h : list file_entry) (m : file_entry) :
  heap_min h = Some m ->
  In m h /\ forall y, In y h -> tuple_ltb y m = false.
Proof.
  revert m. induction h as [|x rest IH]; intros m; [discriminate|].
  simpl. destruct (heap_min rest) as [m'|] eqn:E.
  - destruct (IH m' eq_refl) as [Hin Hleast].
    destruct (tuple_ltb x m') eqn:Hx; intros [= <-]; split.
    + now left.
    + intros y [<-|Hy].
      * destruct (tuple_ltb x x) eqn:Hxx; [|reflexivity].
        now rewrite (tuple_ltb_asym _ _ Hxx) in Hxx.
      * apply tuple_ltb_ntrans with m'; [now apply Hleast|].
        now apply tuple_ltb_asym.
    + now right.
    + intros y [<-|Hy]; [exact Hx | now apply Hleast].
  - apply heap_min_none in E. subst rest. intros [= <-]. split; [now left|].
    intros y [<-|[]].
    destruct (tuple_ltb x x) eqn:Hxx; [|reflexivity].
    now rewrite (tuple_ltb_asym _ _ Hxx) in Hxx.
Qed.

Lemma remove_one_perm (m : file_entry) (h : list file_entry) :
  In m h -> Permutation h (m :: remove_one m h).
Proof.
  induction h as [|y rest IH]; intros Hin; [contradiction|].
  simpl. destruct (tuple_eqb m y) eqn:E.
  - apply tuple_eqb_eq in E. now subst.
  - destruct Hin as [->|Hin].
    + assert (tuple_eqb m m = true) by now apply tuple_eqb_eq.
      congruence.
    + rewrite (IH Hin) at 1. apply perm_swap.
Qed.

Lemma heap_offer_keeps_best (K : nat) (seen buf : list file_entry)
    (x : file_entry) :
  keeps_best K seen buf -> keeps_best K (x :: seen) (heap_offer K buf x).
Proof.
  intros (rest & Hp & Hlen & Hdom). unfold heap_offer.
  pose proof (Permutation_length Hp) as Hl. rewrite length_app in Hl.
  destruct (Nat.ltb_spec (List.length buf) K) as [Hlt|Hge].
  - assert (rest = []) by (destruct rest; [reflexivity | simpl in Hl; lia]).
    subst rest. exists []. split; [|split].
    + simpl. constructor. exact Hp.
    + simpl in *. lia.
    + intros ? ? _ [].
  - destruct (heap_min buf) as [m|] eqn:Hmin.
    + destruct (heap_min_least buf m Hmin) as [Hin Hleast].
      destruct (tuple_ltb m x) eqn:Hmx.
      * exists (m :: rest). split; [|split].
        -- simpl. constructor. rewrite Hp.
           transitivity ((m :: remove_one m buf) ++ rest).
           ++ apply Permutation_app_tail, remove_one_perm, Hin.
           ++ simpl. apply Permutation_middle.
        -- pose proof (Permutation_length (remove_one_perm m buf Hin)) as Hr.
           simpl in *. lia.
        -- assert (Hsub : forall t, In t (remove_one m buf) -> In t buf).
           { intros t Ht. eapply Permutation_in;
               [symmetry; apply (remove_one_perm m buf Hin) | now right]. }
           intros t y [<-|Ht] [<-|Hy].
           ++ now apply tuple_ltb_asym.
           ++ apply tuple_ltb_ntrans with m;
                [now apply tuple_ltb_asym | now apply Hdom].
           ++ now apply Hleast, Hsub.
           ++ now apply Hdom; [apply Hsub|].
      * exists (x :: rest). split; [|split].
        -- rewrite Hp. apply Permutation_middle.
        -- simpl. lia.
        -- intros t y Ht [<-|Hy]; [|now apply Hdom].
           apply tuple_ltb_ntrans with m; [now apply Hleast | exact Hmx].
    + apply heap_min_none in Hmin. subst buf. exists (x :: rest).
      split; [|split].
      * simpl in *. now constructor.
      * simpl in *. lia.
      * intros ? ? [].
Qed.

Lemma fold_heap_offer_keeps_best (K : nat) (files seen buf : list file_entry) :
  keeps_best K seen buf ->
  keeps_best K (rev files ++ seen) (fold_left (heap_offer K) files buf).
Proof.
  revert seen buf. induction files as [|x files IH]; intros seen buf H;
    [exact H|].
  simpl. rewrite <- app_assoc. simpl.
  apply IH. now apply heap_offer_keeps_best.
Qed.

Lemma heap_top_k_sorted (K : nat) (files : list file_entry) :
  heap_top_k K files = firstn K (sort_desc tuple_ltb files).
Proof.
  unfold heap_top_k.
  destruct (fold_heap_offer_keeps_best K files [] [])
    as (rest & Hp & Hlen & Hdom).
  { exists []. split; [reflexivity|]. split; [simpl; lia|]. intros ? ? []. }
  rewrite app_nil_r in Hp, Hlen.
  set (buf := fold_left (heap_offer K) files []) in *.
  rewrite (sort_desc_perm_invariant tuple_ltb tuple_ltb_asym tuple_ltb_ntrans
             tuple_ltb_total files (rev files))
    by apply Permutation_rev.
  apply top_unique with (rest := rest); try tuple_order.
  - apply sort_desc_sorted; tuple_order.
  - rewrite sort_desc_perm. exact Hp.
  - rewrite sort_desc_length. exact Hlen.
  - intros x y Hx Hy. apply Hdom; [|exact Hy]. now apply sort_desc_In in Hx.
Qed.

(** C8. The selection does not depend on the order in which the walk
    meets the entries: for every reordering of the collected pairs, and
    every count, sorting everything and cutting gives the same list; and
    for a count [K >= 0] that list is the one a bounded selection that
    never holds more than [K] entries produces. *)
Theorem selection_order_independent (files files' : list file_entry)
    (count : Z) (K : nat) :
  Permutation files files' ->
  selected files count = selected files' count /\
  selected files (Z.of_nat K) = Ok (heap_top_k K files') /\
  selected files (Z.of_nat K) = Ok (heap_top_k K files).
Proof.
  intros Hp. rewrite !selected_sorted, !heap_top_k_sorted.
  rewrite (sort_desc_perm_invariant tuple_ltb tuple_ltb_asym tuple_ltb_ntrans
             tuple_ltb_total files files' Hp).
  split; [reflexivity|].
  rewrite slice_to_nonneg by lia. rewrite Nat2Z.id. now split.
Qed.

Lemma selection_order_independent_witness :
  Permutation [(3%N, "a"%string); (7%N, "b"%string); (7%N, "c"%string)]
              [(7%N, "c"%string); (3%N, "a"%string); (7%N, "b"%string)] /\
  selected [(3%N, "a"%string); (7%N, "b"%string); (7%N, "c"%string)] 2
  = Ok (heap_top_k 2 [(7%N, "c"%string); (3%N, "a"%string); (7%N, "b"%string)]).
Proof.
  assert (Hp : Permutation
                 [(3%N, "a"%string); (7%N, "b"%string); (7%N, "c"%string)]
                 [(7%N, "c"%string); (3%N, "a"%string); (7%N, "b"%string)]).
  { apply Permutation_sym, (Permutation_cons_app [_; _] []). reflexivity. }
  split; [exact Hp|].
  apply (selection_order_independent _ _ 2 2 Hp).
Defined.

(** ** The CPU ranker *)

Lemma Qltb_lt (x y : Q) : Qltb x y = true <-> (x < y)%Q.
Proof.
  unfold Qltb. rewrite Qlt_alt. destruct (x ?= y)%Q; split; congruence.
Qed.

Lemma Qltb_ge (x y : Q) : Qltb x y = false <-> (y <= x)%Q.
Proof.
  rewrite <- not_true_iff_false, Qltb_lt. split.
  - apply Qnot_lt_le.
  - intros H. now apply Qle_not_lt.
Qed.

Lemma less_usage_asym (p q : proc_info) :
  less_usage p q = true -> less_usage q p = false.
Proof.
  unfold less_usage. rewrite Qltb_lt, Qltb_ge. apply Qlt_le_weak.
Qed.

Lemma less_usage_ntrans (p q r : proc_info) :
  less_usage p q = false -> less_usage q r = false -> less_usage p r = false.
Proof.
  unfold less_usage. rewrite !Qltb_ge. intros H1 H2.
  now apply Qle_trans with (usage q).
Qed.

Lemma py_lt_numeric (p q : proc_info) :
  is_numeric p = true -> is_numeric q = true ->
  py_lt (cpu_key p) (cpu_key q) = Ok (less_usage p q).
Proof.
  unfold is_numeric, less_usage, usage, py_lt.
  destruct (as_number (cpu_key p)); [|discriminate].
  destruct (as_number (cpu_key q)); [|discriminate]. reflexivity.
Qed.

Lemma ranked_numeric (ps : list proc_info) :
  (forall p, In p ps -> is_numeric p = true) ->
  ranked ps = Ok (sort_desc less_usage ps).
Proof.
  intros H. apply sorted_rev_pure. intros x y Hx Hy.
  apply py_lt_numeric; now apply H.
Qed.

Lemma proc_line_reading (p : proc_info) :
  has_reading p = true -> proc_line p = Ok (proc_text p).
Proof.
  unfold has_reading, proc_line, proc_text, cpu_key.
  now destruct (cpu_percent p).
Qed.

Lemma for_each_proc_lines (console : bool) (l : list proc_info) :
  (forall p, In p l -> has_reading p = true) ->
  for_each l (print_proc console) = (proc_events console l, Ok tt).
Proof.
  induction l as [|p l IH]; intros H; [reflexivity|].
  cbn [for_each]. rewrite IH by (intros q Hq; apply H; now right).
  unfold print_proc. rewrite proc_line_reading by (apply H; now left).
  unfold bind, lift, say, say_event, emit. now destruct console.
Qed.

Lemma strongly_sorted_filter {A} (R : A -> A -> Prop) (f : A -> bool)
    (l : list A) :
  StronglySorted R l -> StronglySorted R (filter f l).
Proof.
  induction 1 as [|x xs Hs IH Hx]; simpl; [constructor|].
  destruct (f x); [|exact IH]. constructor; [exact IH|].
  rewrite Forall_forall in *. intros y Hy. apply filter_In in Hy.
  now apply Hx.
Qed.

Lemma same_usage_class (v : Q) (x y : proc_info) :
  same_usage v x = true -> less_usage x y = true -> same_usage v y = false.
Proof.
  unfold same_usage, less_usage. rewrite Qltb_lt. intros Hx Hlt.
  apply Qeq_bool_iff in Hx. apply not_true_iff_false. intros Hy.
  apply Qeq_bool_iff in Hy. rewrite Hx, Hy in Hlt.
  now apply Qlt_irrefl in Hlt.
Qed.

Lemma in_slice_to {A} (l : list A) (n : Z) (x : A) :
  In x (slice_to l n) -> In x l.
Proof. unfold slice_to. destruct (0 <=? n)%Z; apply in_firstn. Qed.

Lemma has_number_numeric (p : proc_info) :
  has_number p = true -> is_numeric p = true /\ has_reading p = true.
Proof.
  unfold has_number, is_numeric, has_reading, cpu_key.
  destruct (cpu_percent p) as [v|]; [|discriminate]. simpl.
  destruct (as_number v); [now split | discriminate].
Qed.

(** The section when the sort succeeds and every listed entry has its
    key. *)
Lemma top_cpu_processes_output (ps s : list proc_info) (n : Z)
    (console : bool) :
  ranked ps = Ok s ->
  (forall p, In p (slice_to s n) -> has_reading p = true) ->
  top_cpu_processes (Ok ps) n console
  = (header_event (cpu_title n) console :: proc_events console (slice_to s n),
     Ok tt).
Proof.
  intros Hs Hr. unfold top_cpu_processes.
  rewrite header_emits. unfold lift, bind. rewrite Hs.
  rewrite for_each_proc_lines by exact Hr. reflexivity.
Qed.

Lemma usage_then_pid_le (a b : proc_info) :
  usage_then_pid a b -> (usage b <= usage a)%Q.
Proof.
  intros [H|[H _]]; [now apply Qlt_le_weak|].
  rewrite H. apply Qle_refl.
Qed.

Lemma insert_usage_then_pid (x : proc_info) (l : list proc_info) :
  StronglySorted usage_then_pid l ->
  Forall (pid_ascending x) l ->
  StronglySorted usage_then_pid (insert_desc less_usage x l).
Proof.
  induction 1 as [|y ys Hs IH Hy]; intros Hpid; simpl.
  - repeat constructor.
  - inversion Hpid as [|? ? Hxy Hxys]; subst.
    destruct (less_usage x y) eqn:E.
    + constructor; [now apply IH|].
      rewrite Forall_forall in *. intros z Hz.
      apply (Permutation_in _ (insert_desc_perm less_usage x ys)) in Hz.
      destruct Hz as [<-|Hz]; [|now apply Hy].
      left. now apply Qltb_lt.
    + constructor; [now constructor|].
      assert (Hle : (usage y <= usage x)%Q) by now apply Qltb_ge.
      assert (Hall : forall z, In z (y :: ys) -> (usage z <= usage x)%Q).
      { intros z [<-|Hz]; [exact Hle|].
        rewrite Forall_forall in Hy.
        apply Qle_trans with (usage y); [|exact Hle].
        now apply usage_then_pid_le, Hy. }
      rewrite Forall_forall in *. intros z Hz.
      destruct (Qle_lt_or_eq _ _ (Hall z Hz)) as [Hlt|Heq]; [now left|].
      right. split; [now symmetry | now apply Hpid].
Qed.

Lemma sort_usage_then_pid (ps : list proc_info) :
  StronglySorted pid_ascending ps ->
  StronglySorted usage_then_pid (sort_desc less_usage ps).
Proof.
  induction 1 as [|x xs Hs IH Hx]; simpl; [constructor|].
  apply insert_usage_then_pid; [exact IH|].
  rewrite Forall_forall in *. intros y Hy. apply Hx.
  now apply sort_desc_In in Hy.
Qed.

(** The sort is stable and compares usage only.  For every process list
    whose sort keys are numbers the ranking is the list sorted by usage
    descending, entries of equal usage staying in the order of the
    process list, hence in ascending PID order whenever the process list
    is; for [N >= 0] its first [N] entries are listed, provided each of
    them has the key. *)
Theorem ranked_by_usage_stable (ps : list proc_info) (n : Z)
    (console : bool) :
  (0 <= n)%Z ->
  (forall p, In p ps -> is_numeric p = true) ->
  exists s : list proc_info,
    ranked ps = Ok s /\
    Permutation s ps /\
    StronglySorted usage_descending s /\
    (forall v, filter (same_usage v) s = filter (same_usage v) ps) /\
    (StronglySorted pid_ascending ps -> StronglySorted usage_then_pid s) /\
    ((forall p, In p (firstn (Z.to_nat n) s) -> has_reading p = true) ->
     top_cpu_processes (Ok ps) n console
     = (header_event (cpu_title n) console
          :: proc_events console (firstn (Z.to_nat n) s), Ok tt)).
Proof.
  intros Hn Hnum. exists (sort_desc less_usage ps).
  pose proof (ranked_numeric ps Hnum) as Hr.
  repeat split.
  - exact Hr.
  - apply sort_desc_perm.
  - apply strongly_sorted_impl with (R := not_below less_usage).
    + intros x y. unfold not_below, less_usage, usage_descending.
      apply Qltb_ge.
    + apply sort_desc_sorted; [exact less_usage_asym | exact less_usage_ntrans].
  - intros v. apply sort_desc_filter. apply same_usage_class.
  - apply sort_usage_then_pid.
  - intros Hread. rewrite <- (slice_to_nonneg _ n Hn) in *.
    now apply top_cpu_processes_output.
Qed.

Lemma ranked_by_usage_stable_witness :
  (0 <= 2)%Z /\
  (forall p, In p tied_procs -> is_numeric p = true) /\
  exists s : list proc_info,
    ranked tied_procs = Ok s /\
    filter (same_usage 1) s = filter (same_usage 1) tied_procs.
Proof.
  assert (Hnum : forall p, In p tied_procs -> is_numeric p = true).
  { intros p [<-|[<-|[]]]; reflexivity. }
  split; [lia|]. split; [exact Hnum|].
  destruct (ranked_by_usage_stable tied_procs 2 false ltac:(lia) Hnum)
    as (s & Hs & _ & _ & Hstable & _).
  exists s. split; [exact Hs | apply Hstable].
Defined.

(** The sort itself never looks at a PID: two entries of equal usage
    given with the higher PID first would stay in that order.  No
    snapshot is such a list, the provider yields ascending PIDs. *)
Lemma ranked_ties_keep_input_order :
  ranked tied_procs = Ok tied_procs /\
  slice_to tied_procs 2 = tied_procs /\
  ~ StronglySorted usage_then_pid tied_procs.
Proof.
  split; [reflexivity|]. split; [reflexivity|].
  intros H. inversion H as [|? ? _ Hall]; subst.
  inversion Hall as [|? ? Hhead _]; subst.
  destruct Hhead as [Hlt|[_ Hpid]].
  - unfold usage, Qlt in Hlt. simpl in Hlt. lia.
  - simpl in Hpid. lia.
Qed.

(** On the lists the provider yields (ascending PIDs) whose readings are
    all numbers, and every [N >= 0], the ranker ends normally and lists
    the first [N] entries of the list sorted by usage descending, equal
    usage by PID ascending. *)
Theorem ranker_lists_by_usage_then_pid (ps : list proc_info) (n : Z)
    (console : bool) :
  (0 <= n)%Z ->
  StronglySorted pid_ascending ps ->
  (forall p, In p ps -> has_number p = true) ->
  exists s : list proc_info,
    Permutation s ps /\
    StronglySorted usage_then_pid s /\
    top_cpu_processes (Ok ps) n console
    = (header_event (cpu_title n) console
         :: proc_events console (firstn (Z.to_nat n) s), Ok tt).
Proof.
  intros Hn Hpid Hnum. exists (sort_desc less_usage ps).
  assert (Hr : ranked ps = Ok (sort_desc less_usage ps)).
  { apply ranked_numeric. intros p Hp. now apply has_number_numeric, Hnum. }
  split; [apply sort_desc_perm|]. split; [now apply sort_usage_then_pid|].
  rewrite <- (slice_to_nonneg _ n Hn).
  apply (top_cpu_processes_output ps _ n console Hr).
  intros p Hp. apply in_slice_to, sort_desc_In in Hp.
  now apply has_number_numeric, Hnum.
Qed.

Lemma tied_ascending_by_pid : StronglySorted pid_ascending tied_ascending.
Proof.
  repeat constructor; unfold pid_ascending; simpl; lia.
Qed.

Lemma ranker_lists_by_usage_then_pid_witness :
  exists s : list proc_info,
    Permutation s tied_ascending /\
    StronglySorted usage_then_pid s /\
    top_cpu_processes (Ok tied_ascending) 2 true
    = (header_event (cpu_title 2) true :: proc_events true (firstn 2 s),
       Ok tt).
Proof.
  apply (ranker_lists_by_usage_then_pid tied_ascending 2 true);
    [lia | exact tied_ascending_by_pid |].
  intros p [<-|[<-|[<-|[]]]]; reflexivity.
Defined.

(** C3.  On a snapshot whose readings are all numbers the entries are
    listed by usage descending and, the provider yielding ascending
    PIDs, equal usage by PID ascending: processes 1 and 2 at 1.0 and
    process 3 at 5.0 are listed as 3, 1, 2.  But with [None] stored as a
    reading (what the provider stores for a value it could not read) the
    sort raises [TypeError] and nothing is listed, where the first [N]
    sorted entries are due. *)
Theorem ranker_unread_usage_not_ranked :
  StronglySorted pid_ascending [proc_a; proc_c_none] /\
  ranked [proc_a; proc_c_none] = Raise TypeError /\
  top_cpu_processes (Ok [proc_a; proc_c_none]) 2 false
  = ([header_event (cpu_title 2) false], Raise TypeError) /\
  StronglySorted pid_ascending tied_ascending /\
  top_cpu_processes (Ok tied_ascending) 3 false
  = ([ header_event (cpu_title 3) false;
       PlainPrint [Interp (PyInt 3); Lit " - "; Interp (PyStr "c");
                   Lit " ("; Interp (PyFloat 5); Lit "% CPU)"];
       PlainPrint [Interp (PyInt 1); Lit " - "; Interp (PyStr "a");
                   Lit " ("; Interp (PyFloat 1); Lit "% CPU)"];
       PlainPrint [Interp (PyInt 2); Lit " - "; Interp (PyStr "b");
                   Lit " ("; Interp (PyFloat 1); Lit "% CPU)"] ],
     Ok tt).
Proof.
  split; [repeat constructor; unfold pid_ascending; simpl; lia|].
  split; [reflexivity|]. split; [reflexivity|].
  split; [repeat constructor; unfold pid_ascending; simpl; lia|].
  reflexivity.
Qed.

(** ** Readings that are not numbers *)

(** C4.  The list of the specification, process 3 having no usable
    reading.  With [None] stored as its reading (what the process
    provider stores for a value it could not read) the sort raises
    [TypeError] and nothing is listed; with the key missing the entry is
    ranked as 0 and the two entries asked for are listed, but asking for
    three raises [KeyError] when the line of process 3 is built. *)
Theorem absent_reading_not_ranked_as_zero :
  top_cpu_processes (Ok [proc_a; proc_b; proc_c_none]) 2 false
  = ([header_event (cpu_title 2) false], Raise TypeError) /\
  top_cpu_processes (Ok [proc_a; proc_b; proc_c_missing]) 2 false
  = (header_event (cpu_title 2) false
       :: proc_events false [proc_b; proc_a], Ok tt) /\
  top_cpu_processes (Ok [proc_a; proc_b; proc_c_missing]) 3 false
  = (header_event (cpu_title 3) false
       :: proc_events false [proc_b; proc_a],
     Raise (KeyError "cpu_percent")).
Proof. repeat split. Qed.

Lemma py_lt_raises (a b : pyval) (e : exn) :
  py_lt a b = Raise e -> e = TypeError.
Proof.
  unfold py_lt.
  destruct (as_number a), (as_number b), a, b; simpl; congruence.
Qed.

Lemma py_lt_none_r (a : pyval) : py_lt a PyNone = Raise TypeError.
Proof. now destruct a. Qed.

Lemma py_lt_none_l (b : pyval) : py_lt PyNone b = Raise TypeError.
Proof. now destruct b. Qed.

Section Raising.
Context {A : Type}.
Variable key : A -> pyval.

Lemma insert_rev_raises (x : A) (l : list A) (e : exn) :
  insert_rev py_lt key x l = Raise e -> e = TypeError.
Proof.
  induction l as [|y ys IH]; simpl; [discriminate|].
  destruct (py_lt (key x) (key y)) as [[|]|e'] eqn:E; simpl.
  - destruct (insert_rev py_lt key x ys); simpl; [discriminate|].
    intros [= <-]. now apply IH.
  - discriminate.
  - intros [= <-]. now apply py_lt_raises in E.
Qed.

Lemma sorted_rev_raises (l : list A) (e : exn) :
  sorted_rev py_lt key l = Raise e -> e = TypeError.
Proof.
  induction l as [|x xs IH]; simpl; [discriminate|].
  destruct (sorted_rev py_lt key xs) as [s|e']; simpl.
  - apply insert_rev_raises.
  - intros [= <-]. now apply IH.
Qed.

Lemma insert_rev_perm (x : A) (l r : list A) :
  insert_rev py_lt key x l = Ok r -> Permutation r (x :: l).
Proof.
  revert r. induction l as [|y ys IH]; simpl; intros r.
  - intros [= <-]. reflexivity.
  - destruct (py_lt (key x) (key y)) as [[|]|e']; simpl; try discriminate.
    + destruct (insert_rev py_lt key x ys) as [r'|]; simpl; [|discriminate].
      intros [= <-]. rewrite (IH r' eq_refl). apply perm_swap.
    + intros [= <-]. reflexivity.
Qed.

Lemma sorted_rev_perm (l s : list A) :
  sorted_rev py_lt key l = Ok s -> Permutation s l.
Proof.
  revert s. induction l as [|x xs IH]; simpl; intros s.
  - intros [= <-]. reflexivity.
  - destruct (sorted_rev py_lt key xs) as [s'|]; simpl; [|discriminate].
    intros H. apply insert_rev_perm in H. rewrite H.
    constructor. now apply IH.
Qed.

(** Two entries or more, one of them with [None] as its key: some
    comparison has [None] as an operand. *)
Lemma sorted_rev_none (l : list A) :
  (2 <= List.length l)%nat ->
  (exists x, In x l /\ key x = PyNone) ->
  sorted_rev py_lt key l = Raise TypeError.
Proof.
  induction l as [|x xs IH]; simpl; intros Hlen Hnone; [lia|].
  destruct (sorted_rev py_lt key xs) as [s|e] eqn:Hs; simpl.
  - pose proof (sorted_rev_perm xs s Hs) as Hp.
    destruct s as [|y ys].
    { apply Permutation_length in Hp. simpl in Hp. lia. }
    simpl.
    assert (Hy : key x = PyNone \/ key y = PyNone).
    { destruct Hnone as (z & [<-|Hz] & Hk); [now left|].
      destruct xs as [|a [|b xs']].
      - contradiction.
      - right. symmetry in Hp. apply Permutation_length_1_inv in Hp.
        destruct Hz as [<-|[]]. inversion Hp; now subst.
      - exfalso.
        assert (Hr : Ok (y :: ys) = @Raise (list A) TypeError).
        { apply IH; [simpl; lia|]. exists z. now split. }
        discriminate Hr. }
    destruct Hy as [Hk|Hk]; rewrite Hk.
    + now rewrite py_lt_none_l.
    + now rewrite py_lt_none_r.
  - f_equal. now apply sorted_rev_raises in Hs.
Qed.
End Raising.

Lemma top_cpu_processes_sort_fails (ps : list proc_info) (n : Z)
    (console : bool) (e : exn) :
  ranked ps = Raise e ->
  top_cpu_processes (Ok ps) n console
  = ([header_event (cpu_title n) console], Raise e).
Proof.
  intros Hr. unfold top_cpu_processes.
  rewrite header_emits. unfold lift, bind. now rewrite Hr.
Qed.

Lemma py_lt_ok_same_kind (a b : pyval) (c : bool) :
  py_lt a b = Ok c ->
  (as_number a <> None /\ as_number b <> None) \/
  (as_number a = None /\ as_number b = None).
Proof.
  unfold py_lt. destruct a, b; simpl; intros H; try discriminate;
    first [left; split; discriminate | right; split; reflexivity].
Qed.

(** A sort that succeeds has compared every element with another one,
    so the keys are all numbers or none of them is. *)
Lemma sorted_rev_ok_same_kind {A} (key : A -> pyval) (l s : list A) :
  sorted_rev py_lt key l = Ok s ->
  (forall x, In x l -> as_number (key x) <> None) \/
  (forall x, In x l -> as_number (key x) = None).
Proof.
  revert s. induction l as [|x xs IH]; intros s; simpl.
  - intros _. left. intros x [].
  - destruct (sorted_rev py_lt key xs) as [s'|] eqn:Hs; simpl; [|discriminate].
    pose proof (sorted_rev_perm key xs s' Hs) as Hp.
    destruct s' as [|y ys].
    + apply Permutation_nil in Hp. subst xs. intros _.
      destruct (as_number (key x)) eqn:E.
      * left. intros z [<-|[]]. congruence.
      * right. intros z [<-|[]]. exact E.
    + simpl. destruct (py_lt (key x) (key y)) as [c|] eqn:Hc; simpl;
        [|discriminate]. intros _.
      assert (Hy : In y xs) by (eapply Permutation_in; [exact Hp | now left]).
      destruct (py_lt_ok_same_kind _ _ _ Hc) as [[Hx Hyk]|[Hx Hyk]];
        destruct (IH _ eq_refl) as [Hall|Hall].
      * left. intros z [<-|Hz]; [exact Hx | now apply Hall].
      * exfalso. apply Hyk. now apply Hall.
      * exfalso. now apply (Hall y Hy).
      * right. intros z [<-|Hz]; [exact Hx | now apply Hall].
Qed.

Lemma ranked_mixed_fails (ps : list proc_info) :
  (exists p, In p ps /\ has_number p = true) ->
  (exists q v, In q ps /\ cpu_percent q = Some v /\ as_number v = None) ->
  ranked ps = Raise TypeError.
Proof.
  intros (p & Hp & Hnum) (q & v & Hq & Hv & Hnone).
  destruct (ranked ps) as [s|e] eqn:Hr.
  - exfalso. apply sorted_rev_ok_same_kind in Hr.
    apply has_number_numeric in Hnum. destruct Hnum as [Hnum _].
    unfold is_numeric in Hnum.
    assert (Hqk : as_number (cpu_key q) = None)
      by (unfold cpu_key; now rewrite Hv).
    destruct Hr as [Hall|Hall].
    + now apply (Hall q Hq).
    + rewrite (Hall p Hp) in Hnum. discriminate.
  - f_equal. now apply sorted_rev_raises in Hr.
Qed.

(** C9.  A snapshot always holds the reporting process itself, whose
    reading is a number.  On such a list: the default 0 stands in for a
    missing key only, a reading that is there is the sort key as it is;
    whenever some entry carries a reading that is there but is not a
    number ([None], say) a comparison of the sort raises [TypeError] and
    the section stops after its header; and, the keys being there, the
    section ends normally exactly when every reading is a number. *)
Theorem non_numeric_reading_fails_sort (ps : list proc_info) (n : Z)
    (console : bool) :
  (exists p, In p ps /\ has_number p = true) ->
  (forall p, cpu_percent p = None -> cpu_key p = PyInt 0) /\
  (forall p v, cpu_percent p = Some v -> cpu_key p = v) /\
  ((exists q v, In q ps /\ cpu_percent q = Some v /\ as_number v = None) ->
   ranked ps = Raise TypeError /\
   top_cpu_processes (Ok ps) n console
   = ([header_event (cpu_title n) console], Raise TypeError)) /\
  ((forall p, In p ps -> has_number p = true) ->
   exists s, ranked ps = Ok s /\
             top_cpu_processes (Ok ps) n console
             = (header_event (cpu_title n) console
                  :: proc_events console (slice_to s n), Ok tt)) /\
  ((forall p, In p ps -> cpu_percent p <> None) ->
   (snd (top_cpu_processes (Ok ps) n console) = Ok tt
    <-> forall p, In p ps -> has_number p = true)).
Proof.
  intros Hself.
  assert (Hfail :
    (exists q v, In q ps /\ cpu_percent q = Some v /\ as_number v = None) ->
    ranked ps = Raise TypeError /\
    top_cpu_processes (Ok ps) n console
    = ([header_event (cpu_title n) console], Raise TypeError)).
  { intros Hbad. pose proof (ranked_mixed_fails ps Hself Hbad) as Hr.
    split; [exact Hr | now apply top_cpu_processes_sort_fails]. }
  assert (Htotal :
    (forall p, In p ps -> has_number p = true) ->
    exists s, ranked ps = Ok s /\
              top_cpu_processes (Ok ps) n console
              = (header_event (cpu_title n) console
                   :: proc_events console (slice_to s n), Ok tt)).
  { intros Hnum.
    assert (Hr : ranked ps = Ok (sort_desc less_usage ps)).
    { apply ranked_numeric. intros p Hp. now apply has_number_numeric, Hnum. }
    eexists. split; [exact Hr|].
    apply (top_cpu_processes_output ps _ n console Hr).
    intros p Hp. apply in_slice_to, sort_desc_In in Hp.
    now apply has_number_numeric, Hnum. }
  split; [|split; [|split; [exact Hfail | split; [exact Htotal|]]]].
  - intros p H. unfold cpu_key. now rewrite H.
  - intros p v H. unfold cpu_key. now rewrite H.
  - intros Hkeys. split.
    + intros Hok p Hp. unfold has_number.
      destruct (cpu_percent p) as [v|] eqn:Hv; [|now apply Hkeys in Hp].
      destruct (as_number v) eqn:Hn; [reflexivity|]. exfalso.
      destruct Hfail as [_ Hout]; [now exists p, v|].
      rewrite Hout in Hok. discriminate.
    + intros Hnum. destruct (Htotal Hnum) as (s & _ & Hout). now rewrite Hout.
Qed.

Lemma non_numeric_reading_fails_sort_witness :
  (exists p, In p [proc_a; proc_c_none] /\ has_number p = true) /\
  (exists q v, In q [proc_a; proc_c_none] /\ cpu_percent q = Some v
               /\ as_number v = None) /\
  top_cpu_processes (Ok [proc_a; proc_c_none]) 3 true
  = ([header_event (cpu_title 3) true], Raise TypeError).
Proof.
  assert (Hself : exists p, In p [proc_a; proc_c_none]
                            /\ has_number p = true).
  { exists proc_a. split; [now left | reflexivity]. }
  assert (Hbad : exists q v, In q [proc_a; proc_c_none]
                             /\ cpu_percent q = Some v /\ as_number v = None).
  { exists proc_c_none, PyNone. split; [right; now left|]. now split. }
  split; [exact Hself|]. split; [exact Hbad|].
  destruct (non_numeric_reading_fails_sort [proc_a; proc_c_none] 3 true Hself)
    as (_ & _ & Hfail & _).
  exact (proj2 (Hfail Hbad)).
Defined.

(** The sort makes no comparison on a list of one entry: a lone entry
    whose reading is [None] would be ranked and printed as it is.  No
    snapshot is such a list. *)
Lemma single_none_reading_is_listed :
  (exists p, In p [proc_c_none] /\ cpu_percent p = Some PyNone) /\
  ranked [proc_c_none] = Ok [proc_c_none] /\
  top_cpu_processes (Ok [proc_c_none]) 1 false
  = (header_event (cpu_title 1) false :: proc_events false [proc_c_none],
     Ok tt).
Proof.
  split; [|split; reflexivity].
  exists proc_c_none. split; [now left | reflexivity].
Qed.

(** ** The driver *)

Lemma bind_assoc {A B C} (m : M A) (f : A -> M B) (g : B -> M C) :
  bind (bind m f) g = bind m (fun x => bind (f x) g).
Proof.
  destruct m as [out [a|e]]; simpl; [|reflexivity].
  destruct (f a) as [out' [b|e']]; simpl; [|reflexivity].
  destruct (g b) as [out'' r]. now rewrite app_assoc.
Qed.

Lemma bind_ext {A B} (m : M A) (f g : A -> M B) :
  (forall x, f x = g x) -> bind m f = bind m g.
Proof.
  intros H. destruct m as [out [a|e]]; simpl; [|reflexivity].
  now rewrite H.
Qed.

Lemma main_sections (w : world) (rich : bool) (a : args) :
  let console := negb (no_color a) && rich in
  main w rich a
  = bind (sections_before_cpu w a console) (fun _ =>
      bind (top_cpu_processes (process_iter w) (arg_cpu a) console) (fun _ =>
        sections_after_cpu w a console)).
Proof.
  intros console. unfold main, sections_before_cpu, sections_after_cpu.
  fold console.
  repeat (rewrite bind_assoc; apply bind_ext; intros _).
  reflexivity.
Qed.

(** C6.  The ranker has no handler of its own and neither has the
    driver: when the process list is unavailable the exception leaves
    [main] after the header of the CPU section, and the sections that
    were to follow never run. *)
Theorem main_aborts_without_process_list (w : world) (rich : bool)
    (a : args) (e : exn) (out : list event) :
  process_iter w = Raise e ->
  sections_before_cpu w a (negb (no_color a) && rich) = (out, Ok tt) ->
  main w rich a
  = (out ++ [header_event (cpu_title (arg_cpu a)) (negb (no_color a) && rich)],
     Raise e).
Proof.
  intros He Hbefore. rewrite main_sections, Hbefore, He.
  unfold top_cpu_processes. rewrite header_emits. reflexivity.
Qed.

Lemma main_aborts_without_process_list_witness :
  process_iter sample_world
  = Raise (PermissionError "process list unavailable") /\
  snd (sections_before_cpu sample_world default_args false) = Ok tt /\
  snd (main sample_world false default_args)
  = Raise (PermissionError "process list unavailable") /\
  ~ In (header_event [Lit "SYSTEM TEMPERATURES"] false)
       (fst (main sample_world false default_args)).
Proof.
  split; [reflexivity|]. split; [reflexivity|].
  rewrite (main_aborts_without_process_list sample_world false default_args
             (PermissionError "process list unavailable")
             (fst (sections_before_cpu sample_world default_args false))
             eq_refl eq_refl).
  split; [reflexivity|].
  vm_compute. intros H.
  repeat (destruct H as [H|H]; [discriminate H|]). exact H.
Defined.

(** * Further properties *)

(** ** The ranker *)

(** Whatever the readings are, the ranking loses and invents no process;
    the only way it fails is a [TypeError] of a comparison. *)
Theorem ranked_permutation_or_type_error (ps : list proc_info) :
  match ranked ps with
  | Ok s => Permutation s ps
  | Raise e => e = TypeError
  end.
Proof.
  destruct (ranked ps) as [s|e] eqn:E.
  - now apply sorted_rev_perm in E.
  - now apply sorted_rev_raises in E.
Qed.

Lemma for_each_app {A} (l1 l2 : list A) (body : A -> M unit) :
  for_each (l1 ++ l2) body = bind (for_each l1 body) (fun _ => for_each l2 body).
Proof.
  induction l1 as [|x l1 IH]; simpl.
  - destruct (for_each l2 body) as [out r]. reflexivity.
  - rewrite IH, bind_assoc. reflexivity.
Qed.

(** The lines are printed one by one: an entry without the key among the
    entries to list raises [KeyError] when its line is built, after the
    lines of the entries ranked before it have been printed. *)
Theorem top_cpu_processes_missing_key (ps s pre post : list proc_info)
    (p : proc_info) (n : Z) (console : bool) :
  ranked ps = Ok s ->
  slice_to s n = pre ++ p :: post ->
  (forall q, In q pre -> has_reading q = true) ->
  cpu_percent p = None ->
  top_cpu_processes (Ok ps) n console
  = (header_event (cpu_title n) console :: proc_events console pre,
     Raise (KeyError "cpu_percent")).
Proof.
  intros Hs Hslice Hpre Hp. unfold top_cpu_processes.
  rewrite header_emits. unfold lift, bind at 1 2 3. rewrite Hs, Hslice.
  rewrite for_each_app, for_each_proc_lines by exact Hpre.
  cbn [for_each]. unfold print_proc, proc_line. rewrite Hp.
  simpl. now rewrite app_nil_r.
Qed.

Lemma top_cpu_processes_missing_key_witness :
  ranked [proc_a; proc_b; proc_c_missing]
  = Ok [proc_b; proc_a; proc_c_missing] /\
  top_cpu_processes (Ok [proc_a; proc_b; proc_c_missing]) 5 true
  = (header_event (cpu_title 5) true :: proc_events true [proc_b; proc_a],
     Raise (KeyError "cpu_percent")).
Proof.
  split; [reflexivity|].
  apply (top_cpu_processes_missing_key
           [proc_a; proc_b; proc_c_missing]
           [proc_b; proc_a; proc_c_missing]
           [proc_b; proc_a] [] proc_c_missing 5 true);
    try reflexivity.
  intros q [<-|[<-|[]]]; reflexivity.
Defined.

(** ** Disk usage *)

Lemma for_each_events {A} (l : list A) (body : A -> M unit) (ev : A -> event) :
  (forall x, In x l -> body x = ([ev x], Ok tt)) ->
  for_each l body = (map ev l, Ok tt).
Proof.
  induction l as [|x l IH]; intros H; [reflexivity|].
  simpl. rewrite (H x) by now left.
  rewrite IH by (intros y Hy; apply H; now right). reflexivity.
Qed.

Lemma show_disks_loop (w : world) (console : bool) :
  show_disks w console
  = bind (header [Lit "DISK USAGE"] console)
         (fun _ => for_each (disk_partitions w) (disk_body w console)).
Proof.
  unfold show_disks. apply bind_ext. intros _. f_equal.
Qed.

Lemma disk_body_readable (w : world) (console : bool) (p : string * string) :
  disk_readable w p = true ->
  disk_body w console p = ([say_event console (disk_text w p) None], Ok tt).
Proof.
  destruct p as [device mountpoint].
  unfold disk_readable, disk_body, disk_text. simpl.
  destruct (disk_usage w mountpoint) as [u|e]; simpl.
  - intros _. now destruct console.
  - intros ->. now destruct console.
Qed.

Lemma disk_body_fails (w : world) (console : bool) (p : string * string)
    (e : exn) :
  disk_usage w (snd p) = Raise e -> is_PermissionError e = false ->
  disk_body w console p = ([], Raise e).
Proof.
  destruct p as [device mountpoint]. simpl. intros He Hp.
  unfold disk_body. rewrite He. simpl. now rewrite Hp.
Qed.

(** A partition whose usage is refused with [PermissionError] gets its
    own "Permission Denied" line and the loop goes on: when every
    partition answers or is refused, the section prints one line per
    partition, in the order of the partition table, and ends normally. *)
Theorem show_disks_permission_denied (w : world) (console : bool) :
  (forall p, In p (disk_partitions w) -> disk_readable w p = true) ->
  show_disks w console
  = (header_event [Lit "DISK USAGE"] console
       :: map (fun p => say_event console (disk_text w p) None)
              (disk_partitions w),
     Ok tt).
Proof.
  intros H. rewrite show_disks_loop, header_emits.
  rewrite (for_each_events _ _
             (fun p => say_event console (disk_text w p) None)).
  - reflexivity.
  - intros p Hp. now apply disk_body_readable, H.
Qed.

Lemma show_disks_permission_denied_witness :
  (forall p, In p (disk_partitions sample_world) ->
             disk_readable sample_world p = true) /\
  snd (show_disks sample_world false) = Ok tt.
Proof.
  assert (H : forall p, In p (disk_partitions sample_world) ->
                        disk_readable sample_world p = true).
  { intros p [<-|[]]. reflexivity. }
  split; [exact H|].
  now rewrite (show_disks_permission_denied sample_world false H).
Defined.

(** Any other failure of [disk_usage] (a mount point that vanished, an
    I/O error) is not handled: the section stops there, the lines of the
    partitions before it printed, and the exception leaves it. *)
Theorem show_disks_other_failure (w : world) (console : bool)
    (pre post : list (string * string)) (p : string * string) (e : exn) :
  disk_partitions w = pre ++ p :: post ->
  (forall q, In q pre -> disk_readable w q = true) ->
  disk_usage w (snd p) = Raise e ->
  is_PermissionError e = false ->
  show_disks w console
  = (header_event [Lit "DISK USAGE"] console
       :: map (fun q => say_event console (disk_text w q) None) pre,
     Raise e).
Proof.
  intros Hparts Hpre He Hp.
  rewrite show_disks_loop, header_emits, Hparts, for_each_app.
  rewrite (for_each_events pre _
             (fun q => say_event console (disk_text w q) None))
    by (intros q Hq; now apply disk_body_readable, Hpre).
  cbn [for_each]. rewrite (disk_body_fails w console p e He Hp).
  simpl. now rewrite app_nil_r.
Qed.

Lemma show_disks_other_failure_witness :
  disk_partitions broken_disk_world
  = firstn 1 (disk_partitions broken_disk_world)
      ++ ("/dev/sdb1", "/mnt")%string :: [] /\
  snd (show_disks broken_disk_world true)
  = Raise (OSError "Input/output error").
Proof.
  split; [reflexivity|].
  rewrite (show_disks_other_failure broken_disk_world true
             (firstn 1 (disk_partitions broken_disk_world)) []
             ("/dev/sdb1", "/mnt")%string
             (OSError "Input/output error")); try reflexivity.
  intros q [<-|[]]. reflexivity.
Defined.

(** ** Network *)

(** A ping that fails is reported and the interfaces are still listed;
    a ping that cannot be started at all (the program is missing, so
    [FileNotFoundError] and not [CalledProcessError]) is not handled and
    stops the section after its header. *)
Theorem check_network_outcomes (w : world) (console : bool) :
  check_network w console
  = match ping w with
    | Ok _ =>
        (header_event [Lit "NETWORK"] console
           :: say_event console [Lit "✅ Outbound connection successful."] None
           :: interface_events w console, Ok tt)
    | Raise e =>
        if is_CalledProcessError e
        then (header_event [Lit "NETWORK"] console
                :: say_event console [Lit "❌ Outbound connection FAILED."] None
                :: interface_events w console, Ok tt)
        else ([header_event [Lit "NETWORK"] console], Raise e)
    end.
Proof.
  unfold check_network, interface_events. rewrite header_emits.
  destruct (ping w) as [[]|e]; simpl.
  - rewrite for_each_say. now destruct console.
  - destruct (is_CalledProcessError e); simpl; [|reflexivity].
    rewrite for_each_say. now destruct console.
Qed.

(** ** Temperatures *)

(** The sensors section prints its header and exactly one more line,
    and ends normally, whenever [sensors] runs or fails in one of the two
    handled ways; a missing program gets its own message. *)
Theorem show_temperatures_handled (w : world) (console : bool) :
  handled_by tool_failure (sensors w) = true ->
  exists line : event,
    show_temperatures w console
    = ([header_event [Lit "SYSTEM TEMPERATURES"] console; line], Ok tt) /\
    (forall m, sensors w = Raise (FileNotFoundError m) ->
       line = say_event console
                [Lit "lm-sensors command not found. Please install lm-sensors."]
                (Some "bold red"%string)).
Proof.
  unfold handled_by, tool_failure, show_temperatures.
  rewrite header_emits.
  destruct (sensors w) as [out|e]; simpl.
  - intros _. rewrite say_emits. eexists. split; [reflexivity|]. discriminate.
  - intros He. rewrite He.
    destruct e; simpl in *; try discriminate; rewrite say_emits;
      (eexists; split; [reflexivity|]);
      intros m' [= <-]; reflexivity.
Qed.

Lemma show_temperatures_handled_witness :
  handled_by tool_failure
    (sensors (with_tools sample_world (Ok tt)
                (Raise (FileNotFoundError "sensors")) (Ok ""%string) (Ok [])))
  = true /\
  snd (show_temperatures
         (with_tools sample_world (Ok tt)
            (Raise (FileNotFoundError "sensors")) (Ok ""%string) (Ok []))
         false) = Ok tt.
Proof.
  split; [reflexivity|].
  destruct (show_temperatures_handled
              (with_tools sample_world (Ok tt)
                 (Raise (FileNotFoundError "sensors")) (Ok ""%string) (Ok []))
              false eq_refl) as (line & Hout & _).
  now rewrite Hout.
Defined.

(** Any other failure of [sensors] leaves the section after its header. *)
Theorem show_temperatures_unhandled (w : world) (console : bool) (e : exn) :
  sensors w = Raise e -> tool_failure e = false ->
  show_temperatures w console
  = ([header_event [Lit "SYSTEM TEMPERATURES"] console], Raise e).
Proof.
  intros He Hf. unfold show_temperatures, tool_failure in *.
  rewrite header_emits, He. simpl. now rewrite Hf.
Qed.

Lemma show_temperatures_unhandled_witness :
  snd (show_temperatures
         (with_tools sample_world (Ok tt)
            (Raise (PermissionError "sensors")) (Ok ""%string) (Ok []))
         false) = Raise (PermissionError "sensors").
Proof.
  now rewrite (show_temperatures_unhandled
                 (with_tools sample_world (Ok tt)
                    (Raise (PermissionError "sensors")) (Ok ""%string) (Ok []))
                 false (PermissionError "sensors") eq_refl eq_refl).
Defined.

(** ** GPU temperatures *)

(** [enumerate]: the i-th line names GPU [i] and carries the i-th
    reading. *)
Theorem gpu_lines_enumerate (temperatures : list string) (start : Z) (i : nat) :
  nth_error (gpu_lines start temperatures) i
  = option_map
      (fun temp => [Lit "GPU "; Interp (PyInt (start + Z.of_nat i));
                    Lit ": "; Interp (PyStr temp); Lit "°C"])
      (nth_error temperatures i).
Proof.
  revert start i. induction temperatures as [|t ts IH]; intros start [|i];
    simpl; try reflexivity.
  - now rewrite Z.add_0_r.
  - rewrite IH.
    replace (start + 1 + Z.of_nat i)%Z with (start + Z.of_nat (S i))%Z by lia.
    reflexivity.
Qed.

Lemma gpu_lines_length (temperatures : list string) (start : Z) :
  List.length (gpu_lines start temperatures) = List.length temperatures.
Proof.
  revert start. induction temperatures as [|t ts IH]; intros start; simpl;
    [reflexivity | now rewrite IH].
Qed.

(** When [nvidia-smi] lists no GPU the temperatures are never asked
    for: one line is printed whatever the second call would do. *)
Theorem show_nvidia_no_gpu (w : world) (console : bool) :
  nvidia_smi_list w = Ok ""%string ->
  show_nvidia_temperature w console
  = ([say_event console [Lit "No Nvidia GPU detected."]
        (Some "yellow"%string)], Ok tt).
Proof.
  intros H. unfold show_nvidia_temperature. rewrite H. simpl.
  now destruct console.
Qed.

Lemma show_nvidia_no_gpu_witness :
  show_nvidia_temperature
    (with_tools sample_world (Ok tt) (Ok ""%string) (Ok ""%string)
       (Raise (OSError "not asked"))) true
  = ([say_event true [Lit "No Nvidia GPU detected."]
        (Some "yellow"%string)], Ok tt).
Proof.
  apply (show_nvidia_no_gpu
           (with_tools sample_world (Ok tt) (Ok ""%string) (Ok ""%string)
              (Raise (OSError "not asked"))) true eq_refl).
Defined.

(** With both calls running or failing in a handled way the section
    ends normally and prints exactly this, and no header: the message
    for a failed call (a missing program has its own); the single line
    "No Nvidia GPU detected." when no GPU is listed; the single line
    "Unable to retrieve Nvidia GPU temperature." when no temperature
    comes back; otherwise one line per GPU. *)
Theorem show_nvidia_handled (w : world) (console : bool) :
  handled_by tool_failure (nvidia_smi_list w) = true ->
  handled_by tool_failure (nvidia_smi_temps w) = true ->
  let failure (e : exn) : event :=
    if is_FileNotFoundError e
    then say_event console
           [Lit "nvidia-smi not found. Nvidia drivers may not be installed."]
           (Some "bold red"%string)
    else say_event console
           [Lit "Error calling nvidia-smi: "; Interp (PyStr (exn_str e))]
           (Some "bold red"%string) in
  show_nvidia_temperature w console
  = (match nvidia_smi_list w with
     | Raise e => [failure e]
     | Ok l =>
         if String.eqb l ""
         then [say_event console [Lit "No Nvidia GPU detected."]
                 (Some "yellow"%string)]
         else
           match nvidia_smi_temps w with
           | Raise e => [failure e]
           | Ok [] =>
               [say_event console
                  [Lit "Unable to retrieve Nvidia GPU temperature."]
                  (Some "bold red"%string)]
           | Ok (t :: ts) =>
               map (fun line => say_event console line None)
                   (gpu_lines 0 (t :: ts))
           end
     end, Ok tt).
Proof.
  unfold handled_by, tool_failure, show_nvidia_temperature.
  destruct (nvidia_smi_list w) as [l|e]; simpl.
  - intros _. destruct (String.eqb l ""); simpl.
    + intros _. now rewrite say_emits.
    + destruct (nvidia_smi_temps w) as [[|t ts]|e];
        [simpl | cbn [handled_by try_except lift bind app] | simpl].
      * intros _. now rewrite say_emits.
      * intros _.
        rewrite (for_each_say console (fun m => m) None (gpu_lines 0 (t :: ts))).
        reflexivity.
      * intros He. rewrite orb_comm, He.
        destruct (is_FileNotFoundError e); now rewrite say_emits.
  - intros He _. rewrite orb_comm, He.
    destruct (is_FileNotFoundError e); now rewrite say_emits.
Qed.

Lemma show_nvidia_handled_witness :
  show_nvidia_temperature
    (with_tools sample_world (Ok tt) (Ok ""%string) (Ok "GPU 0: A100"%string)
       (Ok ["41"%string; "39"%string])) false
  = ([PlainPrint [Lit "GPU "; Interp (PyInt 0); Lit ": ";
                  Interp (PyStr "41"); Lit "°C"];
      PlainPrint [Lit "GPU "; Interp (PyInt 1); Lit ": ";
                  Interp (PyStr "39"); Lit "°C"]], Ok tt) /\
  show_nvidia_temperature
    (with_tools sample_world (Ok tt) (Ok ""%string) (Ok "GPU 0: A100"%string)
       (Raise (CalledProcessError "exit status 9"))) false
  = ([PlainPrint [Lit "Error calling nvidia-smi: ";
                  Interp (PyStr "exit status 9")]], Ok tt).
Proof.
  split.
  - apply (show_nvidia_handled
             (with_tools sample_world (Ok tt) (Ok ""%string)
                (Ok "GPU 0: A100"%string) (Ok ["41"%string; "39"%string]))
             false eq_refl eq_refl).
  - apply (show_nvidia_handled
             (with_tools sample_world (Ok tt) (Ok ""%string)
                (Ok "GPU 0: A100"%string)
                (Raise (CalledProcessError "exit status 9")))
             false eq_refl eq_refl).
Defined.

(** A failure of another kind, of either call, leaves the section
    without a line. *)
Theorem show_nvidia_unhandled (w : world) (console : bool) (e : exn) :
  tool_failure e = false ->
  nvidia_smi_list w = Raise e \/
  (exists l, nvidia_smi_list w = Ok l /\ l <> ""%string /\
             nvidia_smi_temps w = Raise e) ->
  show_nvidia_temperature w console = ([], Raise e).
Proof.
  unfold tool_failure, show_nvidia_temperature.
  intros Hf [H|(l & Hl & Hne & Ht)].
  - rewrite H. simpl. rewrite orb_comm, Hf. reflexivity.
  - rewrite Hl. simpl. apply String.eqb_neq in Hne. rewrite Hne, Ht. simpl.
    rewrite orb_comm, Hf. reflexivity.
Qed.

Lemma show_nvidia_unhandled_witness :
  show_nvidia_temperature
    (with_tools sample_world (Ok tt) (Ok ""%string)
       (Raise (PermissionError "nvidia-smi")) (Ok [])) false
  = ([], Raise (PermissionError "nvidia-smi")).
Proof.
  apply (show_nvidia_unhandled
           (with_tools sample_world (Ok tt) (Ok ""%string)
              (Raise (PermissionError "nvidia-smi")) (Ok [])) false
           (PermissionError "nvidia-smi") eq_refl).
  left. reflexivity.
Defined.

(** ** System information *)

(** The lines are all built before the first one is printed: when the
    working directory or the login name cannot be read the section prints
    its header and nothing else, and the exception leaves it; otherwise
    it prints its header and seven lines. *)
Theorem get_basic_info_all_or_nothing (w : world) (console : bool) :
  match getcwd w, getlogin w with
  | Ok _, Ok _ =>
      snd (get_basic_info w console) = Ok tt /\
      List.length (fst (get_basic_info w console)) = 8%nat
  | Raise e, _ | Ok _, Raise e =>
      get_basic_info w console
      = ([header_event [Lit "SYSTEM INFO"] console], Raise e)
  end.
Proof.
  unfold get_basic_info. rewrite header_emits.
  destruct (getcwd w) as [cwd|e]; [|reflexivity].
  destruct (getlogin w) as [user|e]; [|reflexivity].
  unfold lift, bind. rewrite for_each_say. simpl. now split.
Qed.

(** ** The driver, again *)

Lemma bind_ok {A} (m : M A) (k : A -> M unit) :
  snd (bind m k) = Ok tt
  <-> exists a, snd m = Ok a /\ snd (k a) = Ok tt.
Proof.
  destruct m as [out [a|e]]; simpl.
  - destruct (k a) as [out' r] eqn:E. simpl. split.
    + intros ->. exists a. now rewrite E.
    + intros (a' & [= <-] & H). now rewrite E in H.
  - split; [discriminate|]. intros (a & H & _). discriminate.
Qed.

(** The driver handles nothing: [main] ends normally exactly when every
    section it runs does. *)
Theorem main_ends_normally_iff (w : world) (rich : bool) (a : args) :
  let console := negb (no_color a) && rich in
  snd (main w rich a) = Ok tt
  <-> snd (sections_before_cpu w a console) = Ok tt /\
      snd (top_cpu_processes (process_iter w) (arg_cpu a) console) = Ok tt /\
      snd (sections_after_cpu w a console) = Ok tt.
Proof.
  intros console. rewrite main_sections. fold console.
  rewrite bind_ok. split.
  - intros ([] & H1 & H2). apply bind_ok in H2.
    destruct H2 as ([] & H2 & H3). now repeat split.
  - intros (H1 & H2 & H3). exists tt. split; [exact H1|].
    apply bind_ok. exists tt. now split.
Qed.

(** The first section has no handler: a login name that cannot be read
    (no controlling terminal) ends the whole report after the first
    header. *)
Theorem main_aborts_without_login (w : world) (rich : bool) (a : args)
    (cwd : string) (e : exn) :
  getcwd w = Ok cwd -> getlogin w = Raise e ->
  main w rich a
  = ([header_event [Lit "SYSTEM INFO"] (negb (no_color a) && rich)], Raise e).
Proof.
  intros Hcwd Hlogin. unfold main, get_basic_info.
  rewrite header_emits, Hcwd, Hlogin. reflexivity.
Qed.

Lemma main_aborts_without_login_witness :
  main (with_login sample_world (Raise (OSError "No such device or address")))
       true default_args
  = ([header_event [Lit "SYSTEM INFO"] true],
     Raise (OSError "No such device or address")).
Proof.
  apply (main_aborts_without_login
           (with_login sample_world
              (Raise (OSError "No such device or address")))
           true default_args "/root"%string
           (OSError "No such device or address") eq_refl eq_refl).
Defined.

(** ** One sink for the whole report *)

Lemma sink_bind {A B} (console : bool) (m : M A) (k : A -> M B) :
  on_one_sink console m -> (forall x, on_one_sink console (k x)) ->
  on_one_sink console (bind m k).
Proof.
  unfold on_one_sink. destruct m as [out [a|e]]; simpl; intros Hm Hk;
    [|exact Hm].
  specialize (Hk a). destruct (k a) as [out' r]. simpl in *.
  rewrite forallb_app, Hm, Hk. reflexivity.
Qed.

Lemma sink_try_except {A} (console : bool) (body : M A)
    (catches : exn -> bool) (handler : exn -> M A) :
  on_one_sink console body -> (forall e, on_one_sink console (handler e)) ->
  on_one_sink console (try_except body catches handler).
Proof.
  unfold on_one_sink. destruct body as [out [a|e]]; simpl; intros Hb Hh;
    [exact Hb|].
  destruct (catches e); [|exact Hb].
  specialize (Hh e). destruct (handler e) as [out' r]. simpl in *.
  rewrite forallb_app, Hb, Hh. reflexivity.
Qed.

Lemma sink_for_each {A} (console : bool) (l : list A) (body : A -> M unit) :
  (forall x, on_one_sink console (body x)) ->
  on_one_sink console (for_each l body).
Proof.
  intros H. induction l as [|x l IH]; [reflexivity|].
  simpl. apply sink_bind; [apply H | intros _; exact IH].
Qed.

Lemma sink_say (console : bool) (t : text) (style : option string) :
  on_one_sink console (say console t style).
Proof. unfold on_one_sink. now destruct console. Qed.

Lemma sink_header (console : bool) (t : text) :
  on_one_sink console (header t console).
Proof. unfold on_one_sink. now destruct console. Qed.

Lemma sink_lift {A} (console : bool) (r : result A) :
  on_one_sink console (lift r).
Proof. reflexivity. Qed.

Lemma sink_ret {A} (console : bool) (a : A) : on_one_sink console (ret a).
Proof. reflexivity. Qed.

(** Walks a section and checks every place where it prints. *)
Ltac sink_step :=
  first [ apply sink_say | apply sink_header | apply sink_lift
        | apply sink_ret
        | apply sink_bind | apply sink_try_except | apply sink_for_each ].

Ltac sinks :=
  repeat (intros; try match goal with p : (_ * _)%type |- _ => destruct p end;
          try match goal with
              | |- on_one_sink _ (if ?b then _ else _) => destruct b
              | |- on_one_sink _ (match ?t with [] => _ | _ :: _ => _ end) =>
                  destruct t
              end;
          sink_step).

(** The sink is chosen once: with [--no-color], or without [rich],
    nothing of the whole report goes through a console, and with a
    console nothing is printed past it, however far the report gets. *)
Theorem main_one_sink (w : world) (rich : bool) (a : args) :
  forallb (on_sink (negb (no_color a) && rich)) (fst (main w rich a)) = true.
Proof.
  change (on_one_sink (negb (no_color a) && rich) (main w rich a)).
  unfold main. cbv zeta.
  generalize (negb (no_color a) && rich) as console. intros console.
  unfold get_basic_info, check_network, show_memory, show_disks,
    largest_files, top_cpu_processes, print_proc, show_temperatures,
    show_nvidia_temperature.
  sinks.
Qed.

(** ** Paths *)

Lemma prefix_app (a x : string) : String.prefix a (a ++ x) = true.
Proof.
  induction a as [|c a IH]; simpl; [now destruct x|].
  destruct (ascii_dec c c); [exact IH | contradiction].
Qed.

Lemma prefix_refl (a : string) : String.prefix a a = true.
Proof.
  induction a as [|c a IH]; simpl; [reflexivity|].
  destruct (ascii_dec c c); [exact IH | contradiction].
Qed.

Lemma prefix_trans (a b c : string) :
  String.prefix a b = true -> String.prefix b c = true ->
  String.prefix a c = true.
Proof.
  revert b c. induction a as [|x a IH]; intros b c; [now destruct c|].
  destruct b as [|y b]; simpl; [discriminate|].
  destruct (ascii_dec x y) as [->|]; [|discriminate].
  destruct c as [|z c]; simpl; [discriminate|].
  destruct (ascii_dec y z) as [->|]; [|discriminate].
  intros H1 H2. now apply IH with b.
Qed.

(** Joining a relative name keeps the directory in front and the name
    at the end, with exactly one separator added when the directory does
    not end with one. *)
Theorem path_join_relative (a b : string) :
  a <> ""%string -> starts_with_sep b = false ->
  String.prefix a (path_join a b) = true /\
  path_join a b <> ""%string /\
  path_join a b = (a ++ (if ends_with_sep a then "" else "/") ++ b)%string.
Proof.
  intros Ha Hb. unfold path_join. rewrite Hb.
  apply String.eqb_neq in Ha. rewrite Ha. simpl.
  assert (Hne : forall x, (a ++ x)%string <> ""%string).
  { intros x. destruct a; [now apply String.eqb_neq in Ha|discriminate]. }
  destruct (ends_with_sep a); simpl; repeat split;
    try apply prefix_app; try apply Hne.
Qed.

Lemma path_join_relative_witness :
  path_join "/home" "notes.txt" = "/home/notes.txt"%string /\
  path_join "/" "etc" = "/etc"%string.
Proof.
  destruct (path_join_relative "/home" "notes.txt") as (_ & _ & H1);
    [discriminate | reflexivity |].
  destruct (path_join_relative "/" "etc") as (_ & _ & H2);
    [discriminate | reflexivity |].
  split; [exact H1 | exact H2].
Defined.

(** An absolute second component discards the first. *)
Lemma path_join_absolute (a b : string) :
  starts_with_sep b = true -> path_join a b = b.
Proof. intros H. unfold path_join. now rewrite H. Qed.

(** ** The walk *)

(** Induction on trees: the entries of a listing may be assumed to
    satisfy the property. *)
Lemma node_nested_ind (P : node -> Prop) :
  P NonDir -> P DirLink -> P (Dir None) ->
  (forall entries, Forall (fun e => P (snd e)) entries ->
                   P (Dir (Some entries))) ->
  forall n, P n.
Proof.
  intros Hn Hl Hd Hs. fix IH 1. intros [| |[entries|]]; try assumption.
  apply Hs. induction entries as [|[name child] entries IHe];
    constructor; [apply IH | exact IHe].
Qed.

Lemma names_where_relative (p : node -> bool)
    (entries : list (string * node)) :
  forallb (fun e => negb (starts_with_sep (fst e)) && well_named (snd e))
          entries = true ->
  Forall (fun f => starts_with_sep f = false) (names_where p entries).
Proof.
  unfold names_where. induction entries as [|e entries IH]; simpl;
    [constructor|].
  rewrite !andb_true_iff, negb_true_iff. intros [[Hname _] Hrest].
  destruct (p (snd e)); simpl; [constructor; [exact Hname|]|]; now apply IH.
Qed.

(** Every triple of the walk names a directory at or below the top, and
    file names relative to it. *)
Lemma os_walk_below (n : node) :
  forall top root dirs filenames,
    top <> ""%string -> well_named n = true ->
    In (root, dirs, filenames) (os_walk top n) ->
    String.prefix top root = true /\ root <> ""%string /\
    Forall (fun f => starts_with_sep f = false) filenames.
Proof.
  induction n as [| | |entries IH] using node_nested_ind;
    intros top root dirs filenames Htop Hwn Hin; try contradiction.
  simpl in Hin, Hwn. destruct Hin as [Heq|Hin].
  - inversion Heq; subst. split; [|split; [exact Htop|]].
    + apply prefix_refl.
    + now apply names_where_relative.
  - apply in_flat_map in Hin. destruct Hin as ([name child] & He & Hin).
    rewrite Forall_forall in IH. rewrite forallb_forall in Hwn.
    specialize (Hwn _ He). simpl in Hwn, Hin.
    apply andb_true_iff in Hwn. destruct Hwn as [Hname Hchild].
    apply negb_true_iff in Hname.
    destruct (path_join_relative top name Htop Hname) as (Hpre & Hne & _).
    destruct (IH _ He (path_join top name) root dirs filenames Hne Hchild Hin)
      as (H1 & H2 & H3).
    split; [now apply prefix_trans with (path_join top name)|]. now split.
Qed.

(** Every entry the scanner collects lies below the root it was given:
    its path starts with the root path, and the size listed with it is
    the one [getsize] returned for that very path. *)
Theorem collected_below_root (fs : filesystem) (path : string)
    (s : N) (p : string) :
  path <> ""%string ->
  well_named (tree_at fs path) = true ->
  In (s, p) (collect fs path) ->
  String.prefix path p = true /\ getsize fs p = Some s.
Proof.
  intros Hpath Hwn Hin. apply in_collect in Hin.
  destruct Hin as [Hcand Hsize]. split; [|exact Hsize].
  unfold candidates in Hcand. apply in_flat_map in Hcand.
  destruct Hcand as ([[root dirs] filenames] & Hwalk & Hp).
  apply in_map_iff in Hp. destruct Hp as (fname & <- & Hf).
  destruct (os_walk_below _ _ _ _ _ Hpath Hwn Hwalk) as (Hpre & Hroot & Hrel).
  rewrite Forall_forall in Hrel.
  destruct (path_join_relative root fname Hroot (Hrel _ Hf)) as (Hj & _).
  now apply prefix_trans with root.
Qed.

Lemma collected_below_root_witness :
  "/data"%string <> ""%string /\
  well_named (tree_at sample_fs "/data") = true /\
  In ((2 * GB)%N, "/data/sub/b.img"%string) (collect sample_fs "/data") /\
  String.prefix "/data" "/data/sub/b.img" = true.
Proof.
  assert (Hin : In ((2 * GB)%N, "/data/sub/b.img"%string)
                   (collect sample_fs "/data"))
    by (vm_compute; right; right; now left).
  split; [discriminate|]. split; [reflexivity|]. split; [exact Hin|].
  apply (collected_below_root sample_fs "/data" (2 * GB) "/data/sub/b.img"
           ltac:(discriminate) eq_refl Hin).
Defined.

Lemma measure_ext (fs fs' : filesystem) (root : string)
    (filenames : list string) :
  (forall p, getsize fs' p = getsize fs p) ->
  measure fs' root filenames = measure fs root filenames.
Proof.
  intros H. induction filenames as [|f rest IH]; [reflexivity|].
  simpl. now rewrite H, IH.
Qed.

Lemma collect_walk_ext (fs fs' : filesystem) (path : string) :
  (forall p, getsize fs' p = getsize fs p) ->
  map (fun t => (fst (fst t), snd t)) (os_walk path (tree_at fs' path))
  = map (fun t => (fst (fst t), snd t)) (os_walk path (tree_at fs path)) ->
  collect fs' path = collect fs path.
Proof.
  intros Hsize. unfold collect.
  generalize (os_walk path (tree_at fs path)) as w.
  induction (os_walk path (tree_at fs' path)) as [|[[r d] f] w' IH];
    intros [|[[r2 d2] f2] w]; simpl; try discriminate; [reflexivity|].
  intros [= -> -> Hrest]. now rewrite (IH w Hrest), (measure_ext fs fs').
Qed.

(** A subdirectory that cannot be listed, or that is a symbolic link,
    is passed over without a trace: the scan gives what it gives when
    that entry is not there at all. *)
Theorem unlistable_subdirectory_skipped (fs fs' : filesystem) (path : string)
    (before after : list (string * node)) (name : string) (child : node)
    (count : Z) (console : bool) :
  child = Dir None \/ child = DirLink ->
  tree_at fs path = Dir (Some (before ++ (name, child) :: after)) ->
  tree_at fs' path = Dir (Some (before ++ after)) ->
  (forall p, getsize fs' p = getsize fs p) ->
  collect fs path = collect fs' path /\
  largest_files fs path count console = largest_files fs' path count console.
Proof.
  intros Hchild Hfs Hfs' Hsize.
  assert (Hc : collect fs' path = collect fs path).
  { apply collect_walk_ext; [exact Hsize|]. rewrite Hfs, Hfs'. simpl.
    unfold names_where. rewrite !filter_app, !flat_map_app. simpl.
    destruct Hchild as [-> | ->]; reflexivity. }
  split; [now symmetry|]. rewrite !largest_files_output. now rewrite Hc.
Qed.

Lemma unlistable_subdirectory_skipped_witness :
  collect locked_fs "/data" = collect unlocked_fs "/data" /\
  collect locked_fs "/data"
  = [((500 * MB)%N, "/data/a.iso"%string); ((10 * MB)%N, "/data/c.log"%string)].
Proof.
  destruct (unlistable_subdirectory_skipped locked_fs unlocked_fs "/data"
              [("a.iso"%string, NonDir)] [("c.log"%string, NonDir)]
              "locked" (Dir None) 3 false
              (or_introl eq_refl) eq_refl eq_refl (fun p => eq_refl))
    as [Hc _].
  split; [exact Hc|]. rewrite Hc. reflexivity.
Defined.

(** ** Sizes at the edges of the display *)

Lemma formatted_size_MB (size : N) (h : Z) :
  (size < 1024 ^ 3)%N ->
  round_half_even (Z.of_N size * 100) (Zpos (1024 ^ 2)) = h ->
  formatted_size size
  = (decimal (h / 100)
       ++ String "." (String (digit (h / 10 mod 10))
                        (String (digit (h mod 10)) " MB")))%string.
Proof.
  intros Hlt Hh. unfold formatted_size.
  destruct (N.leb_spec (1024 ^ 3) size) as [Hge|_]; [lia|].
  rewrite formatted_size_shape. unfold hundredths, true_div_1024.
  rewrite round53_small by (eapply N.lt_trans; [exact Hlt | reflexivity]).
  simpl Qnum. simpl Qden. rewrite Z.abs_eq by lia. now rewrite Hh.
Qed.

(** A file of less than half a hundredth of a megabyte (5243 bytes) is
    shown as 0.00 MB. *)
Theorem formatted_size_tiny (size : N) :
  (size < 5243)%N -> formatted_size size = "0.00 MB"%string.
Proof.
  intros Hs. rewrite (formatted_size_MB size 0); [reflexivity | lia |].
  unfold round_half_even.
  assert (Hb : Zpos (1024 ^ 2) = 1048576%Z) by reflexivity. rewrite Hb.
  rewrite Z.div_small, Z.mod_small by lia.
  destruct (Z.compare_spec (2 * (Z.of_N size * 100)) 1048576); lia.
Qed.

Lemma formatted_size_tiny_witness :
  (5242 < 5243)%N /\ formatted_size 5242 = "0.00 MB"%string.
Proof. split; [lia|]. apply formatted_size_tiny. lia. Defined.

(** The unit changes at 2^30 bytes exactly, the rounding does not: the
    5242 sizes just below one gigabyte are shown as 1024.00 MB. *)
Theorem formatted_size_below_GB (size : N) :
  (1024 ^ 3 - 5243 < size < 1024 ^ 3)%N ->
  formatted_size size = "1024.00 MB"%string.
Proof.
  intros [Hlo Hhi].
  assert (H30 : (1024 ^ 3 = 1073741824)%N) by reflexivity.
  rewrite H30 in Hlo, Hhi.
  rewrite (formatted_size_MB size 102400); [reflexivity | lia |].
  unfold round_half_even.
  assert (Hb : Zpos (1024 ^ 2) = 1048576%Z) by reflexivity. rewrite Hb.
  assert (Hq : (Z.of_N size * 100 / 1048576 = 102399)%Z).
  { symmetry. apply (Z.div_unique _ _ _ (Z.of_N size * 100 - 102399 * 1048576));
      lia. }
  assert (Hr : ((Z.of_N size * 100) mod 1048576
                = Z.of_N size * 100 - 102399 * 1048576)%Z).
  { symmetry. apply (Z.mod_unique _ _ 102399); lia. }
  rewrite Hq, Hr.
  destruct (Z.compare_spec (2 * (Z.of_N size * 100 - 102399 * 1048576))
                           1048576); lia.
Qed.

Lemma formatted_size_below_GB_witness :
  (1024 ^ 3 - 5243 < 1024 ^ 3 - 1 < 1024 ^ 3)%N /\
  formatted_size (1024 ^ 3 - 1) = "1024.00 MB"%string /\
  formatted_size (1024 ^ 3) = "1.00 GB"%string.
Proof.
  assert (H : (1024 ^ 3 - 5243 < 1024 ^ 3 - 1 < 1024 ^ 3)%N)
    by (vm_compute; split; reflexivity).
  split; [exact H|]. split; [|reflexivity].
  apply (formatted_size_below_GB (1024 ^ 3 - 1) H).
Defined.

(** ** The order of the listing *)

(** The comparison of [(size, path)] tuples is a strict total order in
    which the size decides and the path breaks ties: two entries are
    never tied unless they are the same entry. *)
Theorem tuple_order_strict_total :
  (forall a, tuple_ltb a a = false) /\
  (forall a b c, tuple_ltb a b = true -> tuple_ltb b c = true ->
                 tuple_ltb a c = true) /\
  (forall a b, a = b \/ tuple_ltb a b = true \/ tuple_ltb b a = true) /\
  (forall a b, tuple_ltb a b = true <->
               (fst a < fst b)%N \/
               (fst a = fst b /\ String.compare (snd a) (snd b) = Lt)).
Proof.
  assert (Hirr : forall a, tuple_ltb a a = false).
  { intros a. destruct (tuple_ltb a a) eqn:E; [|reflexivity].
    now rewrite (tuple_ltb_asym _ _ E) in E. }
  split; [exact Hirr|]. split; [|split].
  - intros a b c Hab Hbc. destruct (tuple_ltb a c) eqn:Hac; [reflexivity|].
    pose proof (tuple_ltb_asym _ _ Hbc) as Hcb.
    now rewrite (tuple_ltb_ntrans _ _ _ Hac Hcb) in Hab.
  - intros a b. destruct (tuple_ltb a b) eqn:Hab; [now right; left|].
    destruct (tuple_ltb b a) eqn:Hba; [now right; right|].
    left. now apply tuple_ltb_total.
  - intros a b. unfold tuple_ltb, String.ltb.
    destruct (N.eqb_spec (fst a) (fst b)) as [E|E].
    + destruct (String.compare (snd a) (snd b)); split.
      * discriminate.
      * intros [H|[_ H]]; [lia | discriminate].
      * intros _. right. now split.
      * reflexivity.
      * discriminate.
      * intros [H|[_ H]]; [lia | discriminate].
    + rewrite N.ltb_lt. split; [now left|]. intros [H|[H _]]; [exact H|].
      contradiction.
Qed.

(** ** Asking for nothing *)

(** With [N = 0] no line is built, so a missing key cannot raise: the
    section prints its header and ends normally whenever the sort
    does. *)
Theorem top_cpu_processes_zero (ps s : list proc_info) (console : bool) :
  ranked ps = Ok s ->
  top_cpu_processes (Ok ps) 0 console
  = ([header_event (cpu_title 0) console], Ok tt).
Proof.
  intros Hs. rewrite (top_cpu_processes_output ps s 0 console Hs).
  - reflexivity.
  - intros p [].
Qed.

Lemma top_cpu_processes_zero_witness :
  top_cpu_processes (Ok [proc_c_missing; proc_a]) 0 false
  = ([header_event (cpu_title 0) false], Ok tt).
Proof.
  apply (top_cpu_processes_zero [proc_c_missing; proc_a]
           [proc_a; proc_c_missing] false eq_refl).
Defined.
